(** * SpekCheck: the wavelength to RGB mapper of [src/create-spectrum.py]

    A shallow embedding of [wavelength2rgb] and [main], statement by
    statement, over an explicit store of numpy buffers, and the properties
    of the mapper stated in the specification.

    Numbers.  A numpy [float64] is modelled as an extended real: a finite
    real number, an infinity, or NaN.  Rounding, overflow and signed zeros
    are abstracted away: finite operations are the exact operations of the
    reals.  The integer array built by [main] holds integer-valued reals.

    Arrays.  A numpy array is a handle (the address of its buffer in the
    store, and its shape); the buffer is the row-major list of its
    elements.  [reshape] returns a view: a new handle on the same buffer.
    Temporaries ([mask], [nm[mask]], right-hand sides) are plain lists. *)

From Stdlib Require Import String Reals Lra Lia Bool Arith ZArith List.
Import ListNotations.

Local Open Scope R_scope.

(** ** Floating-point values *)

Module F64.

Inductive f64 : Type :=
| Fin (r : R)
| PInf
| NInf
| NaN.

Definition Rleb (x y : R) : bool := if Rle_dec x y then true else false.
Definition Rltb (x y : R) : bool := if Rlt_dec x y then true else false.
Definition Reqb (x y : R) : bool := if Req_dec_T x y then true else false.

(** [x <= y] and [x < y]; every comparison with NaN is false. *)
Definition fle (x y : f64) : bool :=
  match x, y with
  | NaN, _ | _, NaN => false
  | Fin a, Fin b => Rleb a b
  | NInf, _ => true
  | _, PInf => true
  | _, _ => false
  end.

Definition flt (x y : f64) : bool :=
  match x, y with
  | NaN, _ | _, NaN => false
  | Fin a, Fin b => Rltb a b
  | PInf, _ => false
  | _, NInf => false
  | _, _ => true
  end.

Definition fge (x y : f64) : bool := fle y x.
Definition fgt (x y : f64) : bool := flt y x.

Definition fopp (x : f64) : f64 :=
  match x with
  | Fin a => Fin (- a)
  | PInf => NInf
  | NInf => PInf
  | NaN => NaN
  end.

Definition fadd (x y : f64) : f64 :=
  match x, y with
  | NaN, _ | _, NaN => NaN
  | Fin a, Fin b => Fin (a + b)
  | PInf, NInf | NInf, PInf => NaN
  | PInf, _ | _, PInf => PInf
  | NInf, _ | _, NInf => NInf
  end.

Definition fsub (x y : f64) : f64 := fadd x (fopp y).

(** The sign of an infinity multiplied or divided by a finite [a]. *)
Definition signed (a : R) (i : f64) : f64 :=
  if Rltb 0 a then i else fopp i.

Definition fmul (x y : f64) : f64 :=
  match x, y with
  | NaN, _ | _, NaN => NaN
  | Fin a, Fin b => Fin (a * b)
  | Fin a, i | i, Fin a => if Reqb a 0 then NaN else signed a i
  | PInf, PInf | NInf, NInf => PInf
  | PInf, NInf | NInf, PInf => NInf
  end.

(** Division; a zero divisor is taken as [+0]. *)
Definition fdiv (x y : f64) : f64 :=
  match x, y with
  | NaN, _ | _, NaN => NaN
  | Fin a, Fin b =>
      if Reqb b 0
      then (if Reqb a 0 then NaN else signed a PInf)
      else Fin (a / b)
  | Fin _, _ => Fin 0
  | i, Fin b => if Reqb b 0 then i else signed b i
  | _, _ => NaN
  end.

Definition is_int (g : R) : bool := Reqb (IZR (Int_part g)) g.
Definition is_odd_int (g : R) : bool := is_int g && Z.odd (Int_part g).

(** [x ** g] for a finite exponent [g], with the cases of C's [pow]:
    anything to the power 0 is 1; a positive base gives [exp (g * ln x)];
    a zero base gives 0 or, for a negative exponent, infinity; a negative
    base has a value only for an integer exponent and is NaN otherwise. *)
Definition fpow (x : f64) (g : R) : f64 :=
  if Reqb g 0 then Fin 1 else
  match x with
  | NaN => NaN
  | Fin r =>
      if Rltb 0 r then Fin (Rpower r g)
      else if Reqb r 0 then (if Rltb 0 g then Fin 0 else PInf)
      else if is_int g then Fin (powerRZ r (Int_part g))
      else NaN
  | PInf => if Rltb 0 g then PInf else Fin 0
  | NInf =>
      if Rltb 0 g then (if is_odd_int g then NInf else PInf) else Fin 0
  end.

Definition is_nan (x : f64) : bool :=
  match x with NaN => true | _ => false end.

(** A finite value in the unit interval. *)
Definition unit_range (x : f64) : Prop :=
  match x with Fin r => 0 <= r <= 1 | _ => False end.

End F64.
Export F64.

Declare Scope f64_scope.
Delimit Scope f64_scope with f64.
Bind Scope f64_scope with f64.
Notation "x + y" := (fadd x y) : f64_scope.
Notation "x - y" := (fsub x y) : f64_scope.
Notation "x * y" := (fmul x y) : f64_scope.
Notation "x / y" := (fdiv x y) : f64_scope.
Notation "- x" := (fopp x) : f64_scope.
Notation "x >=? y" := (fge x y) (at level 70) : f64_scope.
Notation "x <=? y" := (fle x y) (at level 70) : f64_scope.
Notation "x <? y" := (flt x y) (at level 70) : f64_scope.
Notation "x >? y" := (fgt x y) (at level 70) : f64_scope.
Notation "x ** g" := (fpow x g) (at level 30, right associativity) : f64_scope.
(** A finite literal, as [380] or [60.0] in the source. *)
Notation "# r" := (Fin r%R) (at level 1, format "# r") : f64_scope.

(** ** The store of buffers and the monad of statements *)

(** The store: one list of elements per allocated buffer, by address. *)
Definition store : Type := list (list f64).

(** A numpy array object: the address of its buffer, and its shape. *)
Record ndarray : Type := mkArray { buf : nat; shape : list nat }.

Definition prod (shp : list nat) : nat := fold_right Nat.mul 1%nat shp.
Definition ndim (a : ndarray) : nat := length (shape a).
Definition size (a : ndarray) : nat := prod (shape a).

Inductive exn : Type :=
| RuntimeError (msg : string)
| ValueError (msg : string).

Inductive outcome (A : Type) : Type :=
| Ok (a : A)
| Raise (e : exn).
Arguments Ok {A} a.
Arguments Raise {A} e.

(** A statement runs in a store and gives an outcome and the store it
    leaves; an exception keeps the store as it was when raised. *)
Definition M (A : Type) : Type := store -> outcome A * store.

Definition ret {A} (a : A) : M A := fun s => (Ok a, s).
Definition raise {A} (e : exn) : M A := fun s => (Raise e, s).
Definition bind {A B} (m : M A) (k : A -> M B) : M B :=
  fun s => match m s with
           | (Ok a, s') => k a s'
           | (Raise e, s') => (Raise e, s')
           end.

Notation "x <- m ;; k" := (bind m (fun x => k))
  (at level 61, m at next level, right associativity).
Notation "m ;; k" := (bind m (fun _ => k))
  (at level 61, right associativity).

Fixpoint upd (p : nat) (b : list f64) (s : store) : store :=
  match s, p with
  | [], _ => []
  | _ :: t, O => b :: t
  | h :: t, S p' => h :: upd p' b t
  end.

Definition alloc (b : list f64) : M nat := fun s => (Ok (length s), s ++ [b]).
Definition load (a : ndarray) : M (list f64) :=
  fun s => (Ok (nth (buf a) s []), s).
Definition save (a : ndarray) (b : list f64) : M unit :=
  fun s => (Ok tt, upd (buf a) b s).

(** The handle denotes an array of the store. *)
Definition valid (s : store) (a : ndarray) : Prop :=
  (buf a < length s)%nat /\ length (nth (buf a) s []) = size a.

(** ** The numpy operations the source uses *)

(** [numpy.zeros(shp)], [numpy.ones(shp)]: a fresh buffer. *)
Definition zeros (shp : list nat) : M ndarray :=
  p <- alloc (repeat (Fin 0) (prod shp)) ;; ret (mkArray p shp).
Definition ones (shp : list nat) : M ndarray :=
  p <- alloc (repeat (Fin 1) (prod shp)) ;; ret (mkArray p shp).

(** [a.reshape(shp)]: a view on the same buffer. *)
Definition reshape (a : ndarray) (shp : list nat) : M ndarray :=
  if (prod shp =? size a)%nat then ret (mkArray (buf a) shp)
  else raise (ValueError "cannot reshape array").

(** [(a op1 c1) & (a op2 c2)]: the element-wise mask. *)
Definition mask_of (op1 : f64 -> f64 -> bool) (c1 : f64)
    (op2 : f64 -> f64 -> bool) (c2 : f64) (a : ndarray) : M (list bool) :=
  x <- load a ;; ret (map (fun v => op1 v c1 && op2 v c2) x).

(** [xs[mask]] on lists: the elements where the mask holds. *)
Fixpoint select (mask : list bool) (xs : list f64) : list f64 :=
  match mask, xs with
  | m :: mask', x :: xs' =>
      if m then x :: select mask' xs' else select mask' xs'
  | _, _ => []
  end.

(** [a[mask]]. *)
Definition take (a : ndarray) (mask : list bool) : M (list f64) :=
  x <- load a ;; ret (select mask x).

Fixpoint set_nth (k : nat) (v : f64) (l : list f64) : list f64 :=
  match l, k with
  | [], _ => []
  | _ :: t, O => v :: t
  | h :: t, S k' => h :: set_nth k' v t
  end.

(** Masked assignment on a buffer of cells of [c] elements each: the
    successive values of [vals] go to element [k] of the cells where the
    mask holds.  The source always takes [vals] from the same mask, so the
    values cannot run out; the buffer is left as it is if they do. *)
Fixpoint mput (c k : nat) (mask : list bool) (vals b : list f64) : list f64 :=
  match mask with
  | [] => b
  | false :: mask' => firstn c b ++ mput c k mask' vals (skipn c b)
  | true :: mask' =>
      match vals with
      | v :: vals' =>
          set_nth k v (firstn c b) ++ mput c k mask' vals' (skipn c b)
      | [] => b
      end
  end.

(** The same with one scalar for every selected cell. *)
Fixpoint mfill (c k : nat) (mask : list bool) (v : f64) (b : list f64)
  : list f64 :=
  match mask with
  | [] => b
  | m :: mask' =>
      (if m then set_nth k v (firstn c b) else firstn c b)
      ++ mfill c k mask' v (skipn c b)
  end.

(** [a[mask, k] = vals] and [a[mask, k] = v]: the mask runs over the
    leading dimensions, [k] indexes the last one. *)
Definition put_at (a : ndarray) (mask : list bool) (k : nat)
    (vals : list f64) : M unit :=
  b <- load a ;; save a (mput (last (shape a) 1%nat) k mask vals b).
Definition fill_at (a : ndarray) (mask : list bool) (k : nat) (v : f64)
  : M unit :=
  b <- load a ;; save a (mfill (last (shape a) 1%nat) k mask v b).

(** [a[mask] = vals]: the mask covers every dimension. *)
Definition put (a : ndarray) (mask : list bool) (vals : list f64) : M unit :=
  b <- load a ;; save a (mput 1 0 mask vals b).

Fixpoint zip_mul (xs ys : list f64) : list f64 :=
  match xs, ys with
  | x :: xs', y :: ys' => (x * y)%f64 :: zip_mul xs' ys'
  | _, _ => []
  end.

(** [a *= b] where [b] has the shape of [a] with a last dimension of 1:
    every element of [b] is broadcast along the last dimension of [a]. *)
Definition imul (a b : ndarray) : M unit :=
  if list_eq_dec Nat.eq_dec (shape b) (removelast (shape a) ++ [1%nat])
  then x <- load a ;; y <- load b ;;
       save a (zip_mul x (flat_map (fun v => repeat v (last (shape a) 1%nat)) y))
  else raise (ValueError "operands could not be broadcast together").

(** [a **= g]. *)
Definition ipow (a : ndarray) (g : R) : M unit :=
  x <- load a ;; save a (map (fun v => (v ** g)%f64) x).

(** ** The source: [wavelength2rgb] and [main] *)

Local Open Scope f64_scope.

(** Lines 33-36: a 1-dimensional input becomes a row; more than two
    dimensions are refused. *)
Definition check_shape (nm : ndarray) : M ndarray :=
  if (ndim nm =? 1)%nat then reshape nm [1%nat; size nm]
  else if (2 <? ndim nm)%nat
       then raise (RuntimeError "NM has more than 2 dimensions")
       else ret nm.

(** Lines 43-71: the six colour bands, written into [rgb] in place. *)
Definition color_bands (nm rgb : ndarray) : M unit :=
  mask <- mask_of fge #380 flt #440 nm ;;
  v <- take nm mask ;;
  put_at rgb mask 0 (map (fun x => (- (x - #440)) / #60) v) ;;
  fill_at rgb mask 2 #1 ;;

  mask <- mask_of fge #440 flt #490 nm ;;
  v <- take nm mask ;;
  put_at rgb mask 1 (map (fun x => (x - #440) / #50) v) ;;
  fill_at rgb mask 2 #1 ;;

  mask <- mask_of fge #490 flt #510 nm ;;
  fill_at rgb mask 1 #1 ;;
  v <- take nm mask ;;
  put_at rgb mask 2 (map (fun x => (- (x - #510)) / #20) v) ;;

  mask <- mask_of fge #510 flt #580 nm ;;
  v <- take nm mask ;;
  put_at rgb mask 0 (map (fun x => (x - #510) / #70) v) ;;
  fill_at rgb mask 1 #1 ;;

  mask <- mask_of fge #580 flt #645 nm ;;
  fill_at rgb mask 0 #1 ;;
  v <- take nm mask ;;
  put_at rgb mask 1 (map (fun x => (- (x - #645)) / #65) v) ;;

  mask <- mask_of fge #645 flt #780 nm ;;
  fill_at rgb mask 0 #1.

(** Lines 74-80: the intensity factor near the vision limits, with a last
    dimension of 1 for the broadcast. *)
Definition falloff (nm : ndarray) : M ndarray :=
  factor <- ones (shape nm) ;;
  mask <- mask_of fge #380 flt #420 nm ;;
  v <- take nm mask ;;
  put factor mask (map (fun x => #0.3 + #0.7 * (x - #380) / #40) v) ;;
  mask <- mask_of fgt #700 fle #780 nm ;;
  v <- take nm mask ;;
  put factor mask (map (fun x => #0.3 + #0.7 * (#780 - x) / #80) v) ;;
  reshape factor (shape factor ++ [1%nat]).

(** Lines 33-82: everything before the gamma correction. *)
Definition pre_gamma (nm : ndarray) : M ndarray :=
  nm <- check_shape nm ;;
  rgb <- zeros (shape nm ++ [3%nat]) ;;
  color_bands nm rgb ;;
  factor <- falloff nm ;;
  imul rgb factor ;;
  ret rgb.

(** Lines 32-84. *)
Definition wavelength2rgb (nm : ndarray) (gamma : R) : M ndarray :=
  rgb <- pre_gamma nm ;;
  ipow rgb gamma ;;
  ret rgb.

(** The default of the parameter [gamma]. *)
Definition default_gamma : R := 0.8.

(** [range(lo, hi)] as integers. *)
Definition range (lo hi : Z) : list Z :=
  map (fun i => (lo + Z.of_nat i)%Z) (seq 0 (Z.to_nat (hi - lo))).

(** [numpy.array(l)] for a list of integers: a fresh 1-dimensional array. *)
Definition array_of (l : list Z) : M ndarray :=
  p <- alloc (map (fun z => Fin (IZR z)) l) ;; ret (mkArray p [length l]).

(** What [scipy.misc.imsave] is given: the path, and the array read at the
    time of the call.  The encoding of the file is scipy's and is not
    modelled. *)
Record image : Type := mkImage {
  path : string;
  dims : list nat;
  pixels : list f64
}.

Definition imsave (fname : string) (a : ndarray) : M image :=
  x <- load a ;; ret (mkImage fname (shape a) x).

(** Lines 86-90. *)
Definition main (fname : string) : M image :=
  nm <- array_of (range 380 780) ;;
  rgb <- wavelength2rgb nm default_gamma ;;
  imsave fname rgb.

(** ** What the statements do to one element *)

(** One masked assignment, seen from one cell: element [k] becomes [v]
    where the mask holds. *)
Definition assign (m : bool) (k : nat) (v : f64) (p : list f64) : list f64 :=
  if m then set_nth k v p else p.

(** The statements are element-wise: the cell of [rgb] that belongs to the
    wavelength [x] goes through the eleven assignments of lines 43-71 in
    turn, each guarded by its band's mask. *)
Definition ramp1 (x : f64) : list f64 :=
  let band lo hi := (x >=? lo) && (x <? hi) in
  let p := [#0; #0; #0] in
  let p := assign (band #380 #440) 0 ((- (x - #440)) / #60) p in
  let p := assign (band #380 #440) 2 #1 p in
  let p := assign (band #440 #490) 1 ((x - #440) / #50) p in
  let p := assign (band #440 #490) 2 #1 p in
  let p := assign (band #490 #510) 1 #1 p in
  let p := assign (band #490 #510) 2 ((- (x - #510)) / #20) p in
  let p := assign (band #510 #580) 0 ((x - #510) / #70) p in
  let p := assign (band #510 #580) 1 #1 p in
  let p := assign (band #580 #645) 0 #1 p in
  let p := assign (band #580 #645) 1 ((- (x - #645)) / #65) p in
  let p := assign (band #645 #780) 0 #1 p in
  p.

(** The element of [factor] for the wavelength [x] after lines 74-78. *)
Definition factor1 (x : f64) : f64 :=
  let f := #1 in
  let f := if (x >=? #380) && (x <? #420)
           then #0.3 + #0.7 * (x - #380) / #40 else f in
  let f := if (x >? #700) && (x <=? #780)
           then #0.3 + #0.7 * (#780 - x) / #80 else f in
  f.

(** The cell after line 82 and after line 83. *)
Definition scaled1 (x : f64) : list f64 :=
  map (fun c => c * factor1 x) (ramp1 x).
Definition color1 (gamma : R) (x : f64) : list f64 :=
  map (fun c => c ** gamma) (scaled1 x).

(** The shape of [nm] after lines 33-34: a 1-dimensional input has become
    a row. *)
Definition row_shape (nm : ndarray) : list nat :=
  if (ndim nm =? 1)%nat then [1%nat; size nm] else shape nm.

(** The shape of the result: the three channels come last. *)
Definition out_shape (nm : ndarray) : list nat := row_shape nm ++ [3%nat].

(** The cell of the element with row-major index [i] in a buffer of cells
    of three channels: [rgb[r, c, :]]. *)
Definition cell_at (i : nat) (b : list f64) : list f64 :=
  firstn 3 (skipn (i * 3) b).

(** What a run returns, read in the store it leaves: the shape and the
    elements of the array, or the exception. *)
Definition value_of (r : outcome ndarray * store)
  : outcome (list nat * list f64) :=
  match r with
  | (Ok a, s) => Ok (shape a, nth (buf a) s [])
  | (Raise e, _) => Raise e
  end.

(** The wavelength lies in the interval [[380, 780)]. *)
Definition visible (x : f64) : bool := (x >=? #380) && (x <? #780).

(** The finite value of an element; 0 for an infinity or NaN. *)
Definition real_of (x : f64) : R :=
  match x with Fin r => r | _ => 0%R end.

(** Channel [k] of the cell before gamma, as a function of a real
    wavelength. *)
Definition channel (k : nat) (x : R) : R :=
  real_of (nth k (scaled1 (Fin x)) NaN).

(** The six bands of lines 43-71 as a table: the bounds of the mask, and
    the values the band's statements assign (a channel the band does not
    assign keeps its 0). *)
Definition bands : list (R * R * (R -> list R)) :=
  [ (380, 440, fun x => [(- (x - 440)) / 60; 0; 1]);
    (440, 490, fun x => [0; (x - 440) / 50; 1]);
    (490, 510, fun x => [0; 1; (- (x - 510)) / 20]);
    (510, 580, fun x => [(x - 510) / 70; 1; 0]);
    (580, 645, fun x => [1; (- (x - 645)) / 65; 0]);
    (645, 780, fun x => [1; 0; 0]) ]%R.

(** The two formulas of lines 76 and 78. *)
Definition low_factor (x : R) : R := 0.3 + 0.7 * (x - 380) / 40.
Definition high_factor (x : R) : R := 0.3 + 0.7 * (780 - x) / 80.

(** Consecutive entries of a list. *)
Fixpoint adjacent {A} (l : list A) : list (A * A) :=
  match l with
  | a :: (b :: _) as t => (a, b) :: adjacent t
  | _ => []
  end.

(** Continuity of [f] at [x0] within the interval [[lo, hi)]. *)
Definition continuous_within (lo hi : R) (f : R -> R) (x0 : R) : Prop :=
  forall eps : R, (0 < eps)%R ->
  exists delta : R, (0 < delta)%R /\
    forall x : R, (lo <= x < hi)%R -> (Rabs (x - x0) < delta)%R ->
      (Rabs (f x - f x0) < eps)%R.

(** ** The specification's formulas *)

Module Spec.

(** The band table of the specification, section 4.1 step 2. *)
Definition rgb (nm : R) : list R :=
  if Rleb 380 nm && Rltb nm 440 then [- (nm - 440) / 60; 0; 1]%R
  else if Rleb 440 nm && Rltb nm 490 then [0; (nm - 440) / 50; 1]%R
  else if Rleb 490 nm && Rltb nm 510 then [0; 1; - (nm - 510) / 20]%R
  else if Rleb 510 nm && Rltb nm 580 then [(nm - 510) / 70; 1; 0]%R
  else if Rleb 580 nm && Rltb nm 645 then [1; - (nm - 645) / 65; 0]%R
  else if Rleb 645 nm && Rltb nm 780 then [1; 0; 0]%R
  else [0; 0; 0]%R.

(** The attenuation factor of the specification, section 4.1 step 3. *)
Definition factor (nm : R) : R :=
  if Rleb 380 nm && Rltb nm 420 then (0.3 + 0.7 * (nm - 380) / 40)%R
  else if Rltb 700 nm && Rleb nm 780 then (0.3 + 0.7 * (780 - nm) / 80)%R
  else 1%R.

End Spec.

(** [f] jumps by at least [h] at [x0]: as close to [x0] as one likes there
    is a point where [f] differs from [f x0] by [h] or more. *)
Definition jumps_at (f : R -> R) (x0 h : R) : Prop :=
  forall delta : R, (0 < delta)%R ->
  exists x : R, (Rabs (x - x0) < delta)%R /\ (h <= Rabs (f x - f x0))%R.

(** ** The channel table of [spectra/channelConfig.py] *)

Module ChannelConfig.

Local Open Scope string_scope.

(** An entry: the microscope, the channel, and the filters of the light
    path in order, each with its mode, ["R"] or ["T"]. *)
Definition entry : Type := string * string * list (string * string).

(** Lines 3-21. *)
Definition Channels : list entry :=
  [ ("OMX_V3", "Live_YFP", [("R-0056", "R"); ("EM-550-49", "R")]);
    ("OMX_V3", "Live_RFP", [("R-0056", "T"); ("R-0048", "R"); ("R-0053", "T");
                            ("EM-629-53", "R")]);
    ("OMX_V3", "Live_CFP", [("R-0056", "T"); ("R-0048", "R"); ("R-0053", "R");
                            ("EM-482-35", "R")]);
    ("OMX_V3", "Std_GFP", [("R-0063", "R"); ("R-0054", "T"); ("EM-525-50", "R")]);
    ("OMX_V3", "Std_Cy5", [("R-0063", "R"); ("R-0054", "R"); ("EM-684-40", "R")]);
    ("OMX_V3", "Std_DAPI", [("R-0063", "T"); ("R-0039", "R"); ("R-0058", "T");
                            ("EM-442-46", "R")]);
    ("OMX_V3", "Std_RFP", [("R-0063", "T"); ("R-0039", "R"); ("R-0058", "R");
                           ("EM-615-24", "R")]) ].

(** Line 23. *)
Definition ChannelFormat : list string :=
  ["microscope"; "channel"; "filter-definition"].

Definition channel_name (e : entry) : string := snd (fst e).
Definition filters (e : entry) : list (string * string) := snd e.

(** The mode of a filter is one of the two letters. *)
Definition mode_ok (f : string * string) : bool :=
  String.eqb (snd f) "R" || String.eqb (snd f) "T".

(** The light path: dichroics (["R-..."]) first, then one emission filter
    (["EM-..."]) used in reflection. *)
Fixpoint path_ok (l : list (string * string)) : bool :=
  match l with
  | [] => false
  | [f] => prefix "EM-" (fst f) && String.eqb (snd f) "R"
  | f :: l' => prefix "R-" (fst f) && path_ok l'
  end.

End ChannelConfig.

(** * Proofs *)

(** ** Comparisons of reals *)

Section Comparisons.

Variables x y : R.

Lemma Rleb_true : (x <= y)%R -> Rleb x y = true.
Proof. unfold Rleb; destruct (Rle_dec x y); [reflexivity | contradiction]. Qed.

Lemma Rleb_false : (y < x)%R -> Rleb x y = false.
Proof. unfold Rleb; destruct (Rle_dec x y); [lra | reflexivity]. Qed.

Lemma Rltb_true : (x < y)%R -> Rltb x y = true.
Proof. unfold Rltb; destruct (Rlt_dec x y); [reflexivity | contradiction]. Qed.

Lemma Rltb_false : (y <= x)%R -> Rltb x y = false.
Proof. unfold Rltb; destruct (Rlt_dec x y); [lra | reflexivity]. Qed.

Lemma Reqb_true : x = y -> Reqb x y = true.
Proof. unfold Reqb; destruct (Req_dec_T x y); [reflexivity | contradiction]. Qed.

Lemma Reqb_false : x <> y -> Reqb x y = false.
Proof. unfold Reqb; destruct (Req_dec_T x y); [contradiction | reflexivity]. Qed.

End Comparisons.

(** Settles every comparison of reals in the goal that [lra] decides from
    the context. *)
Ltac decide_cmp :=
  repeat match goal with
  | |- context [Rleb ?a ?b] =>
      first [ rewrite (Rleb_true a b) by lra | rewrite (Rleb_false a b) by lra ]
  | |- context [Rltb ?a ?b] =>
      first [ rewrite (Rltb_true a b) by lra | rewrite (Rltb_false a b) by lra ]
  | |- context [Reqb ?a ?b] =>
      first [ rewrite (Reqb_true a b) by lra | rewrite (Reqb_false a b) by lra ]
  end.

(** ** Lists of cells *)

Lemma set_nth_length k v l : length (set_nth k v l) = length l.
Proof.
  revert k; induction l as [|h t IH]; intros [|k]; simpl; auto.
Qed.

Lemma assign_length m k v p : length (assign m k v p) = length p.
Proof. destruct m; simpl; [apply set_nth_length | reflexivity]. Qed.

Lemma firstn_cell c (l r : list f64) : length l = c -> firstn c (l ++ r) = l.
Proof.
  intros <-. induction l; simpl; [destruct r|f_equal]; auto.
Qed.

Lemma skipn_cell c (l r : list f64) : length l = c -> skipn c (l ++ r) = r.
Proof. intros <-. induction l; simpl; auto. Qed.

Section Cells.

(** A buffer made of one cell [g x] of [c] elements per wavelength [x]. *)
Variable c : nat.
Variable g : f64 -> list f64.
Hypothesis g_length : forall x, length (g x) = c.

Lemma mput_cells k (m : f64 -> bool) (f : f64 -> f64) xs :
  mput c k (map m xs) (map f (select (map m xs) xs)) (concat (map g xs))
  = concat (map (fun x => assign (m x) k (f x) (g x)) xs).
Proof.
  induction xs as [|x xs IH]; simpl; [reflexivity|].
  destruct (m x); simpl;
    rewrite (firstn_cell c (g x)), (skipn_cell c (g x)), IH
      by apply g_length; reflexivity.
Qed.

Lemma mfill_cells k (m : f64 -> bool) v xs :
  mfill c k (map m xs) v (concat (map g xs))
  = concat (map (fun x => assign (m x) k v (g x)) xs).
Proof.
  induction xs as [|x xs IH]; simpl; [reflexivity|].
  rewrite (firstn_cell c (g x)), (skipn_cell c (g x)), IH by apply g_length.
  destruct (m x); reflexivity.
Qed.

Lemma zip_mul_cell (l : list f64) v r r' :
  zip_mul (l ++ r) (repeat v (length l) ++ r')
  = map (fun e => (e * v)%f64) l ++ zip_mul r r'.
Proof. induction l; simpl; [|f_equal]; auto. Qed.

Lemma zip_mul_cells (h : f64 -> f64) xs :
  zip_mul (concat (map g xs)) (flat_map (fun v => repeat v c) (map h xs))
  = concat (map (fun x => map (fun e => (e * h x)%f64) (g x)) xs).
Proof.
  induction xs as [|x xs IH]; simpl; [reflexivity|].
  rewrite <- (g_length x) at 1.
  rewrite zip_mul_cell, IH; reflexivity.
Qed.

Lemma concat_cells_length xs :
  length (concat (map g xs)) = (length xs * c)%nat.
Proof.
  induction xs as [|x xs IH]; simpl; [reflexivity|].
  rewrite length_app, IH, g_length; reflexivity.
Qed.

End Cells.

Lemma repeat_cells (v : f64) c (xs : list f64) :
  repeat v (length xs * c) = concat (map (fun _ => repeat v c) xs).
Proof.
  induction xs as [|x xs IH]; simpl; [reflexivity|].
  rewrite repeat_app, IH; reflexivity.
Qed.

Lemma map_cells (f : f64 -> f64) (g : f64 -> list f64) xs :
  map f (concat (map g xs)) = concat (map (fun x => map f (g x)) xs).
Proof. rewrite concat_map, map_map; reflexivity. Qed.

Lemma concat_singletons (h : f64 -> f64) xs :
  concat (map (fun x => [h x]) xs) = map h xs.
Proof. induction xs; simpl; [|f_equal]; auto. Qed.

Lemma concat_map_ext (g g' : f64 -> list f64) xs :
  (forall x, g x = g' x) -> concat (map g xs) = concat (map g' xs).
Proof. intros E; f_equal; apply map_ext; exact E. Qed.

(** ** The store *)

Lemma prod_app shp shp' : prod (shp ++ shp') = (prod shp * prod shp')%nat.
Proof.
  induction shp as [|n shp IH]; simpl; [lia|]. rewrite IH; lia.
Qed.

Lemma upd_length p b s : length (upd p b s) = length s.
Proof.
  revert p; induction s as [|h t IH]; intros [|p]; simpl; auto.
Qed.

Lemma nth_upd_same p b s :
  (p < length s)%nat -> nth p (upd p b s) [] = b.
Proof.
  revert p; induction s as [|h t IH]; intros [|p] H; simpl in *;
    try lia; auto. apply IH; lia.
Qed.

Lemma nth_upd_other p q b s :
  p <> q -> nth q (upd p b s) [] = nth q s [].
Proof.
  revert p q; induction s as [|h t IH]; intros [|p] [|q] H; simpl;
    try congruence; auto.
Qed.

Lemma upd_upd p b b' s : upd p b (upd p b' s) = upd p b s.
Proof.
  revert p; induction s as [|h t IH]; intros [|p]; simpl; auto.
  f_equal; apply IH.
Qed.

Lemma upd_fresh s b b' r : upd (length s) b (s ++ b' :: r) = s ++ b :: r.
Proof. induction s; simpl; [|f_equal]; auto. Qed.

Lemma nth_fresh (s : store) b r : nth (length s) (s ++ b :: r) [] = b.
Proof. induction s; simpl; auto. Qed.

Lemma nth_old (s r : store) p :
  (p < length s)%nat -> nth p (s ++ r) [] = nth p s [].
Proof. intros H; apply app_nth1; exact H. Qed.

(** ** Running the statements *)

Lemma bind_run {A B} (m : M A) (k : A -> M B) s a s' :
  m s = (Ok a, s') -> bind m k s = k a s'.
Proof. unfold bind; intros ->; reflexivity. Qed.

Section Steps.

Context {B : Type} (s : store).

Lemma bind_mask_of op1 c1 op2 c2 a (k : list bool -> M B) :
  bind (mask_of op1 c1 op2 c2 a) k s
  = k (map (fun v => op1 v c1 && op2 v c2) (nth (buf a) s [])) s.
Proof. reflexivity. Qed.

Lemma bind_take a mask (k : list f64 -> M B) :
  bind (take a mask) k s = k (select mask (nth (buf a) s [])) s.
Proof. reflexivity. Qed.

Lemma bind_put_at a mask i vals (k : unit -> M B) :
  bind (put_at a mask i vals) k s
  = k tt (upd (buf a)
            (mput (last (shape a) 1%nat) i mask vals (nth (buf a) s [])) s).
Proof. reflexivity. Qed.

Lemma bind_fill_at a mask i v (k : unit -> M B) :
  bind (fill_at a mask i v) k s
  = k tt (upd (buf a)
            (mfill (last (shape a) 1%nat) i mask v (nth (buf a) s [])) s).
Proof. reflexivity. Qed.

Lemma bind_put a mask vals (k : unit -> M B) :
  bind (put a mask vals) k s
  = k tt (upd (buf a) (mput 1 0 mask vals (nth (buf a) s [])) s).
Proof. reflexivity. Qed.

Lemma bind_zeros shp (k : ndarray -> M B) :
  bind (zeros shp) k s
  = k (mkArray (length s) shp) (s ++ [repeat #0 (prod shp)]).
Proof. reflexivity. Qed.

Lemma bind_ones shp (k : ndarray -> M B) :
  bind (ones shp) k s
  = k (mkArray (length s) shp) (s ++ [repeat #1 (prod shp)]).
Proof. reflexivity. Qed.

End Steps.

Lemma fill_at_run a mask i v s :
  fill_at a mask i v s
  = (Ok tt, upd (buf a)
              (mfill (last (shape a) 1%nat) i mask v (nth (buf a) s [])) s).
Proof. reflexivity. Qed.

Lemma ramp1_length x : length (ramp1 x) = 3%nat.
Proof. unfold ramp1; rewrite !assign_length; reflexivity. Qed.

Lemma scaled1_length x : length (scaled1 x) = 3%nat.
Proof. unfold scaled1; rewrite length_map; apply ramp1_length. Qed.

Lemma color1_length g x : length (color1 g x) = 3%nat.
Proof. unfold color1; rewrite length_map; apply scaled1_length. Qed.

(** Lines 43-71 leave in [rgb] the cell [ramp1 x] of every wavelength. *)
Lemma color_bands_run S nm rgb :
  buf nm <> buf rgb -> (buf rgb < length S)%nat ->
  last (shape rgb) 1%nat = 3%nat ->
  nth (buf rgb) S [] = repeat #0 (length (nth (buf nm) S []) * 3) ->
  color_bands nm rgb S
  = (Ok tt, upd (buf rgb) (concat (map ramp1 (nth (buf nm) S []))) S).
Proof.
  intros Hne Hlt Hlast Hz.
  assert (Hne' : buf rgb <> buf nm) by congruence.
  unfold color_bands.
  set (xs := nth (buf nm) S []) in *.
  rewrite bind_mask_of, bind_take; fold xs.
  rewrite bind_put_at, Hlast, Hz, repeat_cells.
  rewrite mput_cells by reflexivity.
  repeat (first [ rewrite bind_mask_of | rewrite bind_take
                | rewrite bind_put_at | rewrite bind_fill_at ];
          rewrite ?Hlast, ?upd_upd, ?nth_upd_same, ?nth_upd_other
            by assumption;
          fold xs;
          rewrite ?mput_cells, ?mfill_cells
            by (intros; rewrite ?assign_length; reflexivity)).
  rewrite fill_at_run.
  rewrite ?Hlast, ?upd_upd, ?nth_upd_same, ?nth_upd_other by assumption.
  fold xs.
  rewrite mfill_cells by (intros; rewrite ?assign_length; reflexivity).
  reflexivity.
Qed.

Lemma factor_cell x :
  assign ((x >? #700) && (x <=? #780)) 0 (#0.3 + #0.7 * (#780 - x) / #80)
    (assign ((x >=? #380) && (x <? #420)) 0
       (#0.3 + #0.7 * (x - #380) / #40) [#1])
  = [factor1 x].
Proof.
  unfold factor1, assign.
  destruct ((x >? #700) && (x <=? #780)), ((x >=? #380) && (x <? #420));
    reflexivity.
Qed.

(** Lines 74-80 allocate [factor], one element [factor1 x] per wavelength. *)
Lemma falloff_run S nm :
  valid S nm ->
  falloff nm S
  = (Ok (mkArray (length S) (shape nm ++ [1%nat])),
     S ++ [map factor1 (nth (buf nm) S [])]).
Proof.
  intros [Hlt Hlen].
  unfold falloff.
  set (xs := nth (buf nm) S []) in *.
  rewrite bind_ones.
  rewrite bind_mask_of, bind_take, nth_old by assumption; fold xs.
  rewrite bind_put; cbn [buf].
  rewrite nth_fresh, upd_fresh.
  replace (prod (shape nm)) with (length xs * 1)%nat by (fold (size nm); lia).
  rewrite repeat_cells, mput_cells by reflexivity.
  rewrite bind_mask_of, bind_take, nth_old by assumption; fold xs.
  rewrite bind_put; cbn [buf].
  rewrite nth_fresh, upd_fresh.
  rewrite mput_cells by (intros; rewrite ?assign_length; reflexivity).
  unfold reshape, size; cbn [shape buf].
  rewrite prod_app; cbn [prod fold_right].
  replace (prod (shape nm) * (1 * 1) =? prod (shape nm))%nat with true
    by (symmetry; apply Nat.eqb_eq; lia).
  unfold ret. do 3 f_equal.
  rewrite <- concat_singletons.
  apply concat_map_ext; intros x; apply factor_cell.
Qed.

Lemma row_shape_prod nm : prod (row_shape nm) = size nm.
Proof.
  unfold row_shape; destruct (ndim nm =? 1)%nat; [simpl; lia | reflexivity].
Qed.

(** Lines 33-36 let an input of at most two dimensions through. *)
Lemma check_shape_run nm s :
  (ndim nm <= 2)%nat ->
  check_shape nm s = (Ok (mkArray (buf nm) (row_shape nm)), s).
Proof.
  intros Hd. unfold check_shape, row_shape.
  destruct (ndim nm =? 1)%nat.
  - unfold reshape.
    replace (prod [1%nat; size nm] =? size nm)%nat with true; [reflexivity|].
    symmetry; apply Nat.eqb_eq; simpl; lia.
  - replace (2 <? ndim nm)%nat with false; [destruct nm; reflexivity|].
    symmetry; apply Nat.ltb_ge; exact Hd.
Qed.

(** Lines 33-82 on a valid input of at most two dimensions: two buffers are
    allocated after those of the store, the scaled cells and the factor. *)
Lemma pre_gamma_run s nm :
  valid s nm -> (ndim nm <= 2)%nat ->
  pre_gamma nm s
  = (Ok (mkArray (length s) (out_shape nm)),
     s ++ [concat (map scaled1 (nth (buf nm) s []));
           map factor1 (nth (buf nm) s [])]).
Proof.
  intros [Hlt Hlen] Hd.
  unfold pre_gamma.
  rewrite (bind_run _ _ _ _ _ (check_shape_run nm s Hd)).
  rewrite bind_zeros.
  set (xs := nth (buf nm) s []) in *.
  set (nm' := mkArray (buf nm) (row_shape nm)).
  set (rgb := mkArray (length s) (shape nm' ++ [3%nat])).
  assert (Hsz : prod (shape nm' ++ [3%nat]) = (length xs * 3)%nat).
  { rewrite prod_app; cbn [nm' shape]. rewrite row_shape_prod; simpl; lia. }
  set (S1 := s ++ [repeat #0 (prod (shape nm' ++ [3%nat]))]).
  assert (Hc : color_bands nm' rgb S1
               = (Ok tt, s ++ [concat (map ramp1 xs)])).
  { cbn [nm' shape] in Hsz.
    rewrite color_bands_run; unfold S1; cbn [nm' rgb buf shape].
    - rewrite nth_old, upd_fresh by assumption; reflexivity.
    - lia.
    - rewrite length_app; simpl; lia.
    - apply last_last.
    - rewrite nth_fresh, nth_old by assumption; fold xs.
      rewrite Hsz; reflexivity. }
  rewrite (bind_run _ _ _ _ _ Hc).
  assert (Hf : falloff nm' (s ++ [concat (map ramp1 xs)])
               = (Ok (mkArray (length (s ++ [concat (map ramp1 xs)]))
                        (shape nm' ++ [1%nat])),
                  (s ++ [concat (map ramp1 xs)]) ++ [map factor1 xs])).
  { rewrite falloff_run; cbn [nm' buf shape].
    - rewrite nth_old by assumption; reflexivity.
    - split; cbn [nm' buf shape].
      + rewrite length_app; simpl; lia.
      + rewrite nth_old by assumption. fold xs.
        rewrite Hlen; symmetry; apply row_shape_prod. }
  rewrite (bind_run _ _ _ _ _ Hf).
  unfold imul; cbn [rgb nm' buf shape].
  rewrite removelast_last, last_last.
  destruct (list_eq_dec Nat.eq_dec _ _) as [_|N]; [|contradiction].
  unfold bind, load, save, ret; cbn [rgb buf].
  rewrite (nth_fresh (s ++ [concat (map ramp1 xs)])), <- app_assoc; cbn [app].
  rewrite nth_fresh, upd_fresh.
  rewrite zip_mul_cells by apply ramp1_length.
  reflexivity.
Qed.

(** The whole function on a valid input of at most two dimensions. *)
Lemma wavelength2rgb_run s nm gamma :
  valid s nm -> (ndim nm <= 2)%nat ->
  wavelength2rgb nm gamma s
  = (Ok (mkArray (length s) (out_shape nm)),
     s ++ [concat (map (color1 gamma) (nth (buf nm) s []));
           map factor1 (nth (buf nm) s [])]).
Proof.
  intros Hv Hd. unfold wavelength2rgb.
  rewrite (bind_run _ _ _ _ _ (pre_gamma_run s nm Hv Hd)).
  unfold ipow, bind, load, save, ret; cbn [buf].
  rewrite nth_fresh, upd_fresh, map_cells.
  reflexivity.
Qed.

(** More than two dimensions: line 36 raises at once. *)
Lemma check_shape_raise nm s :
  (2 < ndim nm)%nat ->
  check_shape nm s = (Raise (RuntimeError "NM has more than 2 dimensions"), s).
Proof.
  intros Hd. unfold check_shape.
  replace (ndim nm =? 1)%nat with false
    by (symmetry; apply Nat.eqb_neq; lia).
  replace (2 <? ndim nm)%nat with true
    by (symmetry; apply Nat.ltb_lt; exact Hd).
  reflexivity.
Qed.

(** ** The value of one cell *)

(** The wavelength axis cut at every bound the source compares with. *)
Lemma regions (x : R) :
  (x < 380 \/ 380 <= x < 420 \/ 420 <= x < 440 \/ 440 <= x < 490 \/
   490 <= x < 510 \/ 510 <= x < 580 \/ 580 <= x < 645 \/
   645 <= x <= 700 \/ 700 < x < 780 \/ x = 780 \/ 780 < x)%R.
Proof. lra. Qed.

Ltac by_region x :=
  destruct (regions x) as [?|[?|[?|[?|[?|[?|[?|[?|[?|[?|?]]]]]]]]]].

(** Evaluates comparisons and arithmetic on finite values. *)
Ltac finite_eval :=
  repeat (progress
            (decide_cmp;
             cbn [andb assign set_nth fge fgt fle flt fsub fadd fopp fdiv
                  fmul map nth real_of])).

Lemma ramp1_fin (x : R) : ramp1 (Fin x) = map Fin (Spec.rgb x).
Proof.
  unfold ramp1, Spec.rgb.
  by_region x; finite_eval; reflexivity.
Qed.

Lemma factor1_fin (x : R) : factor1 (Fin x) = Fin (Spec.factor x).
Proof.
  unfold factor1, Spec.factor.
  by_region x; finite_eval; reflexivity.
Qed.

Lemma scaled1_fin (x : R) :
  scaled1 (Fin x) = map (fun r => Fin (r * Spec.factor x)) (Spec.rgb x).
Proof.
  unfold scaled1. rewrite ramp1_fin, factor1_fin, map_map. reflexivity.
Qed.

Lemma spec_rgb_range (x : R) :
  Forall (fun r => 0 <= r <= 1)%R (Spec.rgb x).
Proof.
  unfold Spec.rgb.
  by_region x; decide_cmp; cbn [andb];
    repeat apply Forall_cons; try apply Forall_nil; lra.
Qed.

Lemma spec_factor_range (x : R) : (0.3 <= Spec.factor x <= 1)%R.
Proof.
  unfold Spec.factor.
  by_region x; decide_cmp; cbn [andb]; lra.
Qed.

Lemma mul_unit (a b : R) :
  (0 <= a <= 1 -> 0 <= b <= 1 -> 0 <= a * b <= 1)%R.
Proof. intros; nra. Qed.

(** Every channel lies in the unit interval before gamma, whatever the
    wavelength, finite or not. *)
Lemma scaled1_unit (x : f64) : Forall unit_range (scaled1 x).
Proof.
  destruct x as [x| | |].
  - rewrite scaled1_fin.
    pose proof (spec_factor_range x) as Hf.
    induction (spec_rgb_range x) as [|r l Hr _ IH]; simpl; constructor; auto.
    simpl. apply mul_unit; lra.
  - cbv [scaled1 ramp1 factor1 map assign fge fgt fle flt andb fmul].
    repeat apply Forall_cons; try apply Forall_nil; simpl; lra.
  - cbv [scaled1 ramp1 factor1 map assign fge fgt fle flt andb fmul].
    repeat apply Forall_cons; try apply Forall_nil; simpl; lra.
  - cbv [scaled1 ramp1 factor1 map assign fge fgt fle flt andb fmul].
    repeat apply Forall_cons; try apply Forall_nil; simpl; lra.
Qed.

Lemma cell_at_cells (g : f64 -> list f64) xs i x :
  (forall y, length (g y) = 3%nat) ->
  nth_error xs i = Some x ->
  cell_at i (concat (map g xs)) = g x.
Proof.
  intros Hg. unfold cell_at. revert i.
  induction xs as [|y xs IH]; intros [|i] H;
    cbn [nth_error map concat] in *; try discriminate.
  - injection H as ->. cbn [Nat.mul skipn]. apply firstn_cell, Hg.
  - replace (S i * 3)%nat with (i * 3 + 3)%nat by lia.
    rewrite <- skipn_skipn, (skipn_cell 3 (g y)) by apply Hg.
    apply IH, H.
Qed.

(** ** The power *)

Lemma Rpower_unit (r g : R) :
  (0 < r <= 1 -> 0 <= g -> 0 <= Rpower r g <= 1)%R.
Proof.
  intros [Hr Hr1] Hg. unfold Rpower. split.
  - left; apply exp_pos.
  - assert (Hl : (ln r <= 0)%R).
    { destruct Hr1 as [Hlt| ->]; [|rewrite ln_1; lra].
      left; rewrite <- ln_1; apply ln_increasing; assumption. }
    assert (Hp : (g * ln r <= 0)%R) by nra.
    destruct Hp as [Hp|Hp].
    + left; rewrite <- exp_0; apply exp_increasing; exact Hp.
    + rewrite Hp, exp_0; lra.
Qed.

Lemma Rpower_one (g : R) : Rpower 1 g = 1%R.
Proof. unfold Rpower. rewrite ln_1, Rmult_0_r. apply exp_0. Qed.

(** A base in the unit interval and an exponent that is not negative give
    a value in the unit interval. *)
Lemma fpow_unit (v : f64) (g : R) :
  (0 <= g)%R -> unit_range v -> unit_range (v ** g).
Proof.
  intros Hg Hv. destruct v as [r| | |]; simpl in Hv; try contradiction.
  unfold fpow.
  destruct (Req_dec_T g 0) as [-> |Hg0].
  - decide_cmp; simpl; lra.
  - decide_cmp.
    destruct (Rlt_dec 0 r) as [Hr|Hr].
    + decide_cmp; simpl. apply Rpower_unit; lra.
    + assert (r = 0%R) by lra; subst r. decide_cmp; simpl; lra.
Qed.

(** A base in the unit interval never gives NaN. *)
Lemma fpow_not_nan (v : f64) (g : R) :
  unit_range v -> is_nan (v ** g) = false.
Proof.
  intros Hv. destruct v as [r| | |]; simpl in Hv; try contradiction.
  unfold fpow.
  destruct (Req_dec_T g 0) as [-> |Hg0]; decide_cmp; [reflexivity|].
  destruct (Rlt_dec 0 r) as [Hr|Hr].
  - decide_cmp; reflexivity.
  - assert (r = 0%R) by lra; subst r. decide_cmp.
    destruct (Rltb 0 g); reflexivity.
Qed.

(** A positive base. *)
Lemma fpow_pos (r g : R) : (0 < r)%R -> g <> 0%R -> #r ** g = #(Rpower r g).
Proof. intros Hr Hg. unfold fpow. decide_cmp. reflexivity. Qed.

(** Zero to a positive power is zero. *)
Lemma fpow_zero (r g : R) : r = 0%R -> (0 < g)%R -> #r ** g = #0.
Proof. intros -> Hg. unfold fpow. decide_cmp. reflexivity. Qed.

(** The elements of the factor are finite. *)
Lemma factor1_finite (x : f64) : exists f : R, factor1 x = Fin f.
Proof.
  destruct x as [x| | |].
  - exists (Spec.factor x); apply factor1_fin.
  - exists 1%R; reflexivity.
  - exists 1%R; reflexivity.
  - exists 1%R; reflexivity.
Qed.

(** Outside [[380, 780)] no band assigns anything. *)
Lemma ramp1_invisible (x : f64) : visible x = false -> ramp1 x = [#0; #0; #0].
Proof.
  destruct x as [x| | |]; [|reflexivity..].
  unfold visible; cbn [fge fle flt]; intros Hv.
  rewrite ramp1_fin. unfold Spec.rgb.
  destruct (Rlt_dec x 380) as [H|H].
  - decide_cmp; reflexivity.
  - rewrite (Rleb_true 380 x) in Hv by lra. cbn [andb] in Hv.
    unfold Rltb in Hv. destruct (Rlt_dec x 780); [discriminate|].
    decide_cmp; reflexivity.
Qed.

Lemma color1_invisible (gamma : R) (x : f64) :
  (0 < gamma)%R -> visible x = false -> color1 gamma x = [#0; #0; #0].
Proof.
  intros Hg Hv. unfold color1, scaled1.
  rewrite (ramp1_invisible x Hv).
  destruct (factor1_finite x) as [f ->].
  cbn [map fmul]. rewrite !fpow_zero by (lra || assumption). reflexivity.
Qed.

Lemma Forall_cells (P : f64 -> Prop) (g : f64 -> list f64) xs :
  (forall x, Forall P (g x)) -> Forall P (concat (map g xs)).
Proof.
  intros Hg. induction xs as [|x xs IH]; simpl; [constructor|].
  apply Forall_app; split; [apply Hg | exact IH].
Qed.

(** * The claims *)

(** C1.  Lines 43-71, run on an array of finite wavelengths [xs] and a
    zero-filled [rgb], leave for every wavelength the triple of the
    specification's band table ([Spec.rgb]: the six half-open bands, and
    zero outside them), before the factor and before gamma.  At the
    boundary, 440 is in the mask of band [[440,490)] and not in that of
    [[380,440)], with the triple (0,0,1); 439.999 is in the mask of
    [[380,440)]. *)
Theorem bands_match_spec (S : store) (nm rgb : ndarray) (xs : list R) :
  buf nm <> buf rgb -> (buf rgb < length S)%nat ->
  last (shape rgb) 1%nat = 3%nat ->
  nth (buf nm) S [] = map Fin xs ->
  nth (buf rgb) S [] = repeat #0 (length xs * 3) ->
  color_bands nm rgb S
  = (Ok tt,
     upd (buf rgb) (concat (map (fun x => map Fin (Spec.rgb x)) xs)) S)
  /\ (#440 >=? #440) && (#440 <? #490) = true
  /\ (#440 >=? #380) && (#440 <? #440) = false
  /\ ramp1 #440 = [#0; #0; #1]
  /\ (#439.999 >=? #380) && (#439.999 <? #440) = true
  /\ ramp1 #439.999 = [#(- (439.999 - 440) / 60); #0; #1].
Proof.
  intros Hne Hlt Hlast Hnm Hz.
  split; [|repeat split].
  - rewrite color_bands_run; try assumption.
    + rewrite Hnm, map_map. do 3 f_equal.
      apply map_ext; intros x; apply ramp1_fin.
    + rewrite Hnm, length_map; exact Hz.
  - cbn [fge fle flt]; decide_cmp; reflexivity.
  - cbn [fge fle flt]; decide_cmp; reflexivity.
  - rewrite ramp1_fin; unfold Spec.rgb; decide_cmp; cbn [andb map].
    repeat f_equal; lra.
  - cbn [fge fle flt]; decide_cmp; reflexivity.
  - rewrite ramp1_fin; unfold Spec.rgb; decide_cmp; reflexivity.
Qed.

Lemma bands_match_spec_witness :
  color_bands (mkArray 0 [1; 2]%nat) (mkArray 1 [1; 2; 3]%nat)
    [[#440; #439.999]; repeat #0 6]
  = (Ok tt,
     [[#440; #439.999];
      concat (map (fun x => map Fin (Spec.rgb x)) [440; 439.999]%R)]).
Proof.
  apply (bands_match_spec [[#440; #439.999]; repeat #0 6]
           (mkArray 0 [1; 2]%nat) (mkArray 1 [1; 2; 3]%nat)
           [440; 439.999]%R).
  - discriminate.
  - simpl; lia.
  - reflexivity.
  - reflexivity.
  - reflexivity.
Defined.

(** C4.  On finite wavelengths the factor is that of the specification
    ([Spec.factor]: 0.3 + 0.7(nm-380)/40 on [[380,420)],
    0.3 + 0.7(780-nm)/80 on [(700,780]], 1 elsewhere), and every channel
    of the result is the band value times the factor of its wavelength,
    raised to the power gamma afterwards. *)
Theorem factor_then_gamma (s : store) (nm : ndarray) (gamma : R)
    (xs : list R) :
  valid s nm -> (ndim nm <= 2)%nat ->
  nth (buf nm) s [] = map Fin xs ->
  wavelength2rgb nm gamma s
  = (Ok (mkArray (length s) (out_shape nm)),
     s ++ [concat (map (fun x => map (fun c => #(c * Spec.factor x) ** gamma)
                                   (Spec.rgb x)) xs);
           map (fun x => Fin (Spec.factor x)) xs]).
Proof.
  intros Hv Hd Hnm.
  rewrite wavelength2rgb_run by assumption.
  rewrite Hnm, !map_map. do 3 f_equal; [f_equal | f_equal].
  - apply map_ext; intros x.
    unfold color1. rewrite scaled1_fin, map_map. reflexivity.
  - apply map_ext; intros x; apply factor1_fin.
Qed.

Lemma factor_then_gamma_witness :
  wavelength2rgb (mkArray 0 [2%nat]) default_gamma [[#400; #750]]
  = (Ok (mkArray 1 [1; 2; 3]%nat),
     [[#400; #750];
      concat (map (fun x => map (fun c => #(c * Spec.factor x) ** default_gamma)
                              (Spec.rgb x)) [400; 750]%R);
      map (fun x => Fin (Spec.factor x)) [400; 750]%R]).
Proof.
  apply (factor_then_gamma [[#400; #750]] (mkArray 0 [2%nat]) default_gamma
           [400; 750]%R).
  - split; [simpl; lia | reflexivity].
  - unfold ndim; simpl; lia.
  - reflexivity.
Defined.

(** C6.  Where gamma is applied (line 83 runs on the array and store that
    lines 33-82 leave), every channel is a finite value in [[0,1]],
    whatever the wavelengths; so no negative base is raised to the power
    gamma, and no power is NaN. *)
Theorem gamma_base_in_unit_range (s : store) (nm : ndarray) (gamma : R) :
  valid s nm -> (ndim nm <= 2)%nat ->
  exists (rgb : ndarray) (s' : store),
    pre_gamma nm s = (Ok rgb, s')
    /\ wavelength2rgb nm gamma s = (ipow rgb gamma ;; ret rgb) s'
    /\ Forall unit_range (nth (buf rgb) s' [])
    /\ Forall (fun v => is_nan (v ** gamma) = false) (nth (buf rgb) s' []).
Proof.
  intros Hv Hd.
  pose proof (pre_gamma_run s nm Hv Hd) as Hrun.
  eexists; eexists; split; [exact Hrun|].
  split; [unfold wavelength2rgb; rewrite (bind_run _ _ _ _ _ Hrun);
          reflexivity|].
  cbn [buf]. rewrite nth_fresh.
  assert (Hu : Forall unit_range (concat (map scaled1 (nth (buf nm) s [])))).
  { apply Forall_cells, scaled1_unit. }
  split; [exact Hu|].
  eapply Forall_impl; [|exact Hu].
  intros v; apply fpow_not_nan.
Qed.

Lemma gamma_base_in_unit_range_witness :
  exists (rgb : ndarray) (s' : store),
    pre_gamma (mkArray 0 [2%nat]) [[#400; NaN]] = (Ok rgb, s')
    /\ wavelength2rgb (mkArray 0 [2%nat]) (-1) [[#400; NaN]]
       = (ipow rgb (-1) ;; ret rgb) s'
    /\ Forall unit_range (nth (buf rgb) s' [])
    /\ Forall (fun v => is_nan (v ** (-1)) = false) (nth (buf rgb) s' []).
Proof.
  apply (gamma_base_in_unit_range [[#400; NaN]] (mkArray 0 [2%nat]) (-1)).
  - split; [simpl; lia | reflexivity].
  - unfold ndim; simpl; lia.
Defined.

(** C2, as stated, fails.  For the 1-dimensional input [[500]] and gamma
    = -1 the result has the shape 1 x 1 x 3, not 1 x 3; its first entry,
    0 ** -1, is infinite, and its last, 0.5 ** -1, is 2. *)
Lemma row_shape_and_negative_gamma :
  match value_of (wavelength2rgb (mkArray 0 [1%nat]) (-1) [[#500]]) with
  | Ok (shp, b) =>
      shp = [1; 1; 3]%nat /\ nth 0 b NaN = PInf /\ nth 2 b NaN = #2
  | Raise _ => False
  end.
Proof.
  rewrite wavelength2rgb_run;
    [| split; [simpl; lia | reflexivity] | unfold ndim; simpl; lia].
  cbn [value_of buf shape].
  rewrite nth_fresh. split; [reflexivity|].
  cbn [nth map concat app]. unfold color1.
  rewrite scaled1_fin. unfold Spec.rgb, Spec.factor.
  decide_cmp. cbn [andb map nth app]. split.
  - unfold fpow. decide_cmp. reflexivity.
  - rewrite fpow_pos by lra. f_equal.
    replace (- (500 - 510) / 20 * 1)%R with (/ 2)%R by lra.
    change (-1)%R with (Ropp 1).
    rewrite Rpower_Ropp, Rpower_1 by lra. lra.
Qed.

(** C2, amended.  For a valid 1- or 2-dimensional input and gamma >= 0 the
    mapper returns an array whose shape is the input's shape, a
    1-dimensional input of n wavelengths counting as the row 1 x n,
    followed by a dimension of size 3, with every entry in [[0,1]]. *)
Theorem result_shape_and_range (s : store) (nm : ndarray) (gamma : R) :
  valid s nm -> (ndim nm = 1 \/ ndim nm = 2)%nat -> (0 <= gamma)%R ->
  exists (out : ndarray) (s' : store),
    wavelength2rgb nm gamma s = (Ok out, s')
    /\ shape out
       = (if (ndim nm =? 1)%nat then [1%nat; size nm] else shape nm)
         ++ [3%nat]
    /\ valid s' out
    /\ Forall unit_range (nth (buf out) s' []).
Proof.
  intros Hv Hd Hg.
  assert (Hd' : (ndim nm <= 2)%nat) by lia.
  eexists; eexists; split; [apply wavelength2rgb_run; assumption|].
  cbn [buf shape]. rewrite nth_fresh.
  split; [reflexivity|]. split; [split|].
  - cbn [buf]. rewrite length_app; simpl; lia.
  - cbn [buf]. rewrite nth_fresh.
    rewrite (concat_cells_length 3) by apply color1_length.
    unfold size; cbn [shape]. unfold out_shape.
    rewrite prod_app, row_shape_prod. destruct Hv as [_ ->]. simpl; lia.
  - apply Forall_cells; intros x. unfold color1.
    apply Forall_map. eapply Forall_impl; [|apply scaled1_unit].
    intros v; apply fpow_unit; exact Hg.
Qed.

Lemma result_shape_and_range_witness :
  exists (out : ndarray) (s' : store),
    wavelength2rgb (mkArray 0 [2%nat]) 0.8 [[#500; #900]] = (Ok out, s')
    /\ shape out = [1; 2; 3]%nat
    /\ valid s' out
    /\ Forall unit_range (nth (buf out) s' []).
Proof.
  apply (result_shape_and_range [[#500; #900]] (mkArray 0 [2%nat]) 0.8).
  - split; [simpl; lia | reflexivity].
  - left; reflexivity.
  - lra.
Defined.

(** C3, as stated, fails for rank 0: a 0-dimensional array passes the
    check of lines 33-36 and the mapper goes on to return a result. *)
Lemma rank0_passes_check :
  check_shape (mkArray 0 []) [[#500]] = (Ok (mkArray 0 []), [[#500]])
  /\ fst (wavelength2rgb (mkArray 0 []) default_gamma [[#500]])
     = Ok (mkArray 1 [3%nat]).
Proof.
  split; [reflexivity|].
  rewrite wavelength2rgb_run;
    [reflexivity | split; [simpl; lia | reflexivity] | unfold ndim; simpl; lia].
Qed.

(** C3, amended.  For every input of more than two dimensions the mapper
    raises its runtime error at the shape check: the store is the one it
    was called in, nothing has been allocated or computed, and the run
    ends there. *)
Theorem more_than_two_dims_raise (s : store) (nm : ndarray) (gamma : R) :
  (2 < ndim nm)%nat ->
  wavelength2rgb nm gamma s
  = (Raise (RuntimeError "NM has more than 2 dimensions"), s).
Proof.
  intros Hd. unfold wavelength2rgb, pre_gamma, bind.
  rewrite check_shape_raise by exact Hd. reflexivity.
Qed.

Lemma more_than_two_dims_raise_witness :
  wavelength2rgb (mkArray 0 [1; 1; 1]%nat) default_gamma [[#500]]
  = (Raise (RuntimeError "NM has more than 2 dimensions"), [[#500]]).
Proof.
  apply (more_than_two_dims_raise [[#500]] (mkArray 0 [1; 1; 1]%nat)).
  unfold ndim; simpl; lia.
Defined.

(** C5, as stated, fails for gamma = 0: the wavelength 100 is outside
    [[380,780)] and its triple is (1,1,1), since 0 ** 0 = 1. *)
Lemma zero_gamma_gives_ones :
  value_of (wavelength2rgb (mkArray 0 [1%nat]) 0 [[#100]])
  = Ok ([1; 1; 3]%nat, [#1; #1; #1]).
Proof.
  rewrite wavelength2rgb_run;
    [| split; [simpl; lia | reflexivity] | unfold ndim; simpl; lia].
  cbn [value_of buf shape].
  rewrite nth_fresh. apply f_equal, f_equal2; [reflexivity|].
  cbn [nth map concat app]. unfold color1.
  rewrite scaled1_fin. unfold Spec.rgb.
  decide_cmp. cbn [andb map app]. unfold fpow. decide_cmp. reflexivity.
Qed.

(** C5, amended.  For gamma > 0, every wavelength outside [[380,780)]
    (an infinity or NaN included) gets exactly the triple (0,0,0). *)
Theorem invisible_gives_zero (s : store) (nm : ndarray) (gamma : R) :
  valid s nm -> (ndim nm <= 2)%nat -> (0 < gamma)%R ->
  exists (out : ndarray) (s' : store),
    wavelength2rgb nm gamma s = (Ok out, s')
    /\ forall (i : nat) (x : f64),
         nth_error (nth (buf nm) s []) i = Some x ->
         visible x = false ->
         cell_at i (nth (buf out) s' []) = [#0; #0; #0].
Proof.
  intros Hv Hd Hg.
  eexists; eexists; split; [apply wavelength2rgb_run; assumption|].
  intros i x Hi Hx. cbn [buf]. rewrite nth_fresh.
  rewrite (cell_at_cells _ _ i x) by (apply color1_length || exact Hi).
  apply color1_invisible; assumption.
Qed.

Lemma invisible_gives_zero_witness :
  exists (out : ndarray) (s' : store),
    wavelength2rgb (mkArray 0 [3%nat]) 0.8 [[#100; #500; #780]] = (Ok out, s')
    /\ forall (i : nat) (x : f64),
         nth_error [#100; #500; #780] i = Some x ->
         visible x = false ->
         cell_at i (nth (buf out) s' []) = [#0; #0; #0].
Proof.
  apply (invisible_gives_zero [[#100; #500; #780]] (mkArray 0 [3%nat]) 0.8).
  - split; [simpl; lia | reflexivity].
  - unfold ndim; simpl; lia.
  - lra.
Defined.

(** C7.  [main] builds the integers 380..779 (400 of them, step 1) as a
    1-dimensional array, maps it with the default gamma, and hands
    [imsave] the path and an array of shape 1 x 400 x 3. *)
Theorem main_renders_400_columns (fname : string) (s : store) :
  main fname s
  = (Ok (mkImage fname [1; 400; 3]%nat
           (concat (map (color1 default_gamma)
                      (map (fun z => Fin (IZR z)) (range 380 780))))),
     s ++ [map (fun z => Fin (IZR z)) (range 380 780);
           concat (map (color1 default_gamma)
                     (map (fun z => Fin (IZR z)) (range 380 780)));
           map factor1 (map (fun z => Fin (IZR z)) (range 380 780))])
  /\ range 380 780 = map Z.of_nat (seq 380 400)
  /\ length (concat (map (color1 default_gamma)
                       (map (fun z => Fin (IZR z)) (range 380 780))))
     = (1 * 400 * 3)%nat.
Proof.
  set (dom := map (fun z => Fin (IZR z)) (range 380 780)).
  assert (Hlen : length dom = 400%nat) by reflexivity.
  split; [|split].
  - unfold main.
    assert (Ha : array_of (range 380 780) s
                 = (Ok (mkArray (length s) [400%nat]), s ++ [dom]))
      by reflexivity.
    rewrite (bind_run _ _ _ _ _ Ha).
    assert (Hv : valid (s ++ [dom]) (mkArray (length s) [400%nat])).
    { split; cbn [buf].
      - rewrite length_app; simpl; lia.
      - rewrite nth_fresh. exact Hlen. }
    assert (Hd : (ndim (mkArray (length s) [400%nat]) <= 2)%nat)
      by (unfold ndim; simpl; lia).
    rewrite (bind_run _ _ _ _ _
               (wavelength2rgb_run _ _ default_gamma Hv Hd)).
    cbn [buf]. rewrite nth_fresh.
    unfold imsave, bind, load, ret. cbn [buf shape].
    rewrite (nth_fresh (s ++ [dom])), <- app_assoc. reflexivity.
  - reflexivity.
  - fold dom. rewrite (concat_cells_length 3) by apply color1_length.
    rewrite Hlen. reflexivity.
Qed.

Lemma color1_violet :
  color1 0.8 #380 = [#(Rpower 0.3 0.8); #0; #(Rpower 0.3 0.8)].
Proof.
  unfold color1. rewrite scaled1_fin. unfold Spec.rgb, Spec.factor.
  decide_cmp. cbn [andb map].
  rewrite (fpow_zero (0 * _)) by lra.
  rewrite !fpow_pos by lra.
  repeat (f_equal; try lra).
Qed.

Lemma Rpower_violet : (0 < Rpower 0.3 0.8)%R.
Proof. unfold Rpower; apply exp_pos. Qed.

Lemma five_run :
  value_of (wavelength2rgb (mkArray 0 [5%nat]) 0.8
              [[#380; #480; #550; #650; #750]])
  = Ok ([1; 5; 3]%nat,
        concat (map (color1 0.8) [#380; #480; #550; #650; #750])).
Proof.
  rewrite wavelength2rgb_run;
    [| split; [simpl; lia | reflexivity] | unfold ndim; simpl; lia].
  cbn [value_of buf shape]. rewrite nth_fresh. reflexivity.
Qed.

(** C8, as stated, fails: at index 0 (380 nm) the red channel is
    0.3 ** 0.8, which is positive, not 0. *)
Lemma violet_has_red :
  exists b : list f64,
    value_of (wavelength2rgb (mkArray 0 [5%nat]) 0.8
                [[#380; #480; #550; #650; #750]])
    = Ok ([1; 5; 3]%nat, b)
    /\ nth 0 b NaN = #(Rpower 0.3 0.8)
    /\ (0 < Rpower 0.3 0.8)%R.
Proof.
  eexists; split; [apply five_run|].
  split; [|apply Rpower_violet].
  cbn [map concat]. rewrite color1_violet. reflexivity.
Qed.

(** C8, amended.  For the input [[380, 480, 550, 650, 750]] and gamma =
    0.8 the mapper gives five triples with every entry in [[0,1]]; the
    triple at index 0 has R = B = 0.3 ** 0.8 > 0 and G = 0; at index 2
    (550 nm) G is 1 before gamma, with the factor 1, and 1 after. *)
Theorem five_wavelengths :
  exists b : list f64,
    value_of (wavelength2rgb (mkArray 0 [5%nat]) 0.8
                [[#380; #480; #550; #650; #750]])
    = Ok ([1; 5; 3]%nat, b)
    /\ length b = (5 * 3)%nat
    /\ Forall unit_range b
    /\ cell_at 0 b = [#(Rpower 0.3 0.8); #0; #(Rpower 0.3 0.8)]
    /\ (0 < Rpower 0.3 0.8)%R
    /\ nth 1 (ramp1 #550) NaN = #1
    /\ factor1 #550 = #1
    /\ nth 1 (cell_at 2 b) NaN = #1.
Proof.
  eexists; split; [apply five_run|].
  split; [|split; [|split; [|split; [|split; [|split]]]]].
  - rewrite (concat_cells_length 3) by apply color1_length. reflexivity.
  - apply Forall_cells; intros x. unfold color1.
    apply Forall_map. eapply Forall_impl; [|apply scaled1_unit].
    intros v; apply fpow_unit; lra.
  - rewrite (cell_at_cells _ _ 0 #380) by (apply color1_length || reflexivity).
    apply color1_violet.
  - apply Rpower_violet.
  - rewrite ramp1_fin. unfold Spec.rgb. decide_cmp. reflexivity.
  - rewrite factor1_fin. unfold Spec.factor. decide_cmp. reflexivity.
  - rewrite (cell_at_cells _ _ 2 #550) by (apply color1_length || reflexivity).
    unfold color1. rewrite scaled1_fin. unfold Spec.rgb, Spec.factor.
    decide_cmp. cbn [andb map nth].
    rewrite fpow_pos by lra.
    replace (1 * 1)%R with 1%R by lra. rewrite Rpower_one. reflexivity.
Qed.

Lemma firstn_prefix (s l : store) : firstn (length s) (s ++ l) = s.
Proof. induction s; simpl; [destruct l|f_equal]; auto. Qed.

Lemma out_shape_ext nm1 nm2 :
  shape nm1 = shape nm2 -> out_shape nm1 = out_shape nm2.
Proof.
  intros H. unfold out_shape, row_shape, ndim, size. rewrite H. reflexivity.
Qed.

(** C9.  The result depends on the elements and shape of the input and on
    gamma only: two calls on equal arrays, in any two stores and at any
    addresses, return equal arrays (or raise the same exception); for at
    most two dimensions the triple of each wavelength is a function of
    that wavelength and gamma, [color1 gamma]; and every buffer that was
    in the store before the call, the input's included, is unchanged
    after it. *)
Theorem same_input_same_output (s1 s2 : store) (nm1 nm2 : ndarray)
    (gamma : R) :
  valid s1 nm1 -> valid s2 nm2 ->
  shape nm1 = shape nm2 ->
  nth (buf nm1) s1 [] = nth (buf nm2) s2 [] ->
  value_of (wavelength2rgb nm1 gamma s1)
  = value_of (wavelength2rgb nm2 gamma s2)
  /\ firstn (length s1) (snd (wavelength2rgb nm1 gamma s1)) = s1
  /\ firstn (length s2) (snd (wavelength2rgb nm2 gamma s2)) = s2
  /\ ((ndim nm1 <= 2)%nat ->
      value_of (wavelength2rgb nm1 gamma s1)
      = Ok (out_shape nm1,
            concat (map (color1 gamma) (nth (buf nm1) s1 [])))).
Proof.
  intros Hv1 Hv2 Hs Hb.
  assert (Hn : ndim nm2 = ndim nm1) by (unfold ndim; rewrite Hs; reflexivity).
  destruct (le_lt_dec (ndim nm1) 2) as [Hd|Hd].
  - rewrite !wavelength2rgb_run by (assumption || lia).
    cbn [value_of snd buf shape].
    rewrite !nth_fresh, !firstn_prefix, Hb, (out_shape_ext nm1 nm2 Hs).
    repeat split; reflexivity.
  - unfold wavelength2rgb, pre_gamma, bind.
    rewrite !check_shape_raise by lia.
    cbn [value_of snd].
    repeat split; try reflexivity.
    + rewrite <- (app_nil_r s1) at 2. apply firstn_prefix.
    + rewrite <- (app_nil_r s2) at 2. apply firstn_prefix.
    + intros; lia.
Qed.

Lemma same_input_same_output_witness :
  value_of (wavelength2rgb (mkArray 0 [1%nat]) 0.8 [[#500]])
  = value_of (wavelength2rgb (mkArray 1 [1%nat]) 0.8 [[#1]; [#500]])
  /\ firstn 1 (snd (wavelength2rgb (mkArray 0 [1%nat]) 0.8 [[#500]]))
     = [[#500]]
  /\ firstn 2 (snd (wavelength2rgb (mkArray 1 [1%nat]) 0.8 [[#1]; [#500]]))
     = [[#1]; [#500]]
  /\ ((ndim (mkArray 0 [1%nat]) <= 2)%nat ->
      value_of (wavelength2rgb (mkArray 0 [1%nat]) 0.8 [[#500]])
      = Ok ([1; 1; 3]%nat, concat (map (color1 0.8) [#500]))).
Proof.
  apply (same_input_same_output [[#500]] [[#1]; [#500]]
           (mkArray 0 [1%nat]) (mkArray 1 [1%nat]) 0.8).
  - split; [simpl; lia | reflexivity].
  - split; [simpl; lia | reflexivity].
  - reflexivity.
  - reflexivity.
Defined.

(** ** Continuity before gamma *)

Lemma channel_eq (k : nat) (x : R) :
  (k < 3)%nat ->
  channel k x = (nth k (Spec.rgb x) 0 * Spec.factor x)%R.
Proof.
  intros Hk. unfold channel. rewrite scaled1_fin.
  unfold Spec.rgb.
  by_region x; decide_cmp; cbn [andb map];
    destruct k as [|[|[|k]]]; try lia; reflexivity.
Qed.

Lemma channel_none (k : nat) (x : R) : (3 <= k)%nat -> channel k x = 0%R.
Proof.
  intros Hk. unfold channel.
  rewrite nth_overflow by (rewrite scaled1_length; exact Hk).
  reflexivity.
Qed.

(** Between two visible wavelengths a band value moves by at most a
    twentieth of their distance. *)
Lemma band_lipschitz (k : nat) (x y : R) :
  (380 <= x -> x <= y -> y < 780 ->
   - ((y - x) / 20) <= nth k (Spec.rgb y) 0 - nth k (Spec.rgb x) 0
     <= (y - x) / 20)%R.
Proof.
  intros Hx Hxy Hy. unfold Spec.rgb.
  by_region x; try lra; by_region y; try lra;
    decide_cmp; cbn [andb];
    destruct k as [|[|[|k]]]; cbn [nth]; lra.
Qed.

Lemma factor_lipschitz (x y : R) :
  (380 <= x -> x <= y -> y < 780 ->
   - ((y - x) / 20) <= Spec.factor y - Spec.factor x <= (y - x) / 20)%R.
Proof.
  intros Hx Hxy Hy. unfold Spec.factor.
  by_region x; try lra; by_region y; try lra;
    decide_cmp; cbn [andb]; lra.
Qed.

Lemma spec_rgb_nth_range (k : nat) (x : R) :
  (0 <= nth k (Spec.rgb x) 0 <= 1)%R.
Proof.
  pose proof (spec_rgb_range x) as H.
  destruct (nth_in_or_default k (Spec.rgb x) 0%R) as [Hin| ->]; [|lra].
  rewrite Forall_forall in H. apply H, Hin.
Qed.

(** Between two visible wavelengths a channel moves, before gamma, by at
    most their distance. *)
Lemma channel_lipschitz (k : nat) (x y : R) :
  (380 <= x -> x <= y -> y < 780 ->
   - (y - x) <= channel k y - channel k x <= y - x)%R.
Proof.
  intros Hx Hxy Hy.
  destruct (le_lt_dec 3 k) as [Hk|Hk].
  - rewrite !channel_none by exact Hk. lra.
  - rewrite !channel_eq by exact Hk.
    pose proof (band_lipschitz k x y Hx Hxy Hy) as Hb.
    pose proof (factor_lipschitz x y Hx Hxy Hy) as Hf.
    pose proof (spec_rgb_nth_range k y) as Ry.
    pose proof (spec_factor_range x) as Fx.
    set (a := nth k (Spec.rgb y) 0%R) in *.
    set (b := nth k (Spec.rgb x) 0%R) in *.
    set (f := Spec.factor y) in *.
    set (g := Spec.factor x) in *.
    replace (a * f - b * g)%R with (a * (f - g) + g * (a - b))%R by ring.
    assert (- ((y - x) / 20) <= a * (f - g) <= (y - x) / 20)%R by nra.
    assert (- ((y - x) / 20) <= g * (a - b) <= (y - x) / 20)%R by nra.
    lra.
Qed.

Lemma channel_continuous (k : nat) (x0 : R) :
  (380 <= x0 < 780)%R -> continuous_within 380 780 (channel k) x0.
Proof.
  intros H0 eps Heps. exists eps. split; [exact Heps|].
  intros x Hx Hd.
  destruct (Rle_dec x x0) as [Hle|Hgt].
  - pose proof (channel_lipschitz k x x0) as L.
    unfold Rabs in *.
    destruct (Rcase_abs (x - x0)), (Rcase_abs (channel k x - channel k x0));
      lra.
  - pose proof (channel_lipschitz k x0 x) as L.
    unfold Rabs in *.
    destruct (Rcase_abs (x - x0)), (Rcase_abs (channel k x - channel k x0));
      lra.
Qed.

(** C10.  The band table [bands] is what lines 43-71 assign on each band;
    at each interior boundary 440, 490, 510, 580, 645 the band that ends
    there and the band that starts there give the same triple; the two
    factor formulas of lines 76 and 78 give 1 at 420 and at 700, where
    the factor is 1; and every channel before gamma is continuous at each
    point of [[380,780)] within that interval. *)
Theorem bands_meet_at_boundaries :
  Forall (fun b : R * R * (R -> list R) =>
            let '(lo, hi, f) := b in
            forall x : R, (lo <= x < hi)%R -> ramp1 (Fin x) = map Fin (f x))
         bands
  /\ Forall (fun p : (R * R * (R -> list R)) * (R * R * (R -> list R)) =>
               let '((_, hi, f), (lo, _, f')) := p in
               hi = lo /\ f hi = f' lo)
            (adjacent bands)
  /\ map (fun p : (R * R * (R -> list R)) * (R * R * (R -> list R)) =>
            snd (fst (fst p))) (adjacent bands)
     = [440; 490; 510; 580; 645]%R
  /\ (forall x : R, (380 <= x < 420)%R -> factor1 (Fin x) = Fin (low_factor x))
  /\ (forall x : R, (700 < x <= 780)%R -> factor1 (Fin x) = Fin (high_factor x))
  /\ low_factor 420 = 1%R /\ factor1 #420 = #1
  /\ high_factor 700 = 1%R /\ factor1 #700 = #1
  /\ (forall (k : nat) (x0 : R),
        (380 <= x0 < 780)%R -> continuous_within 380 780 (channel k) x0).
Proof.
  split; [|split; [|split; [|split; [|split; [|split; [|split;
    [|split; [|split]]]]]]]].
  - unfold bands. repeat apply Forall_cons; try apply Forall_nil;
      intros x Hx; rewrite ramp1_fin; unfold Spec.rgb;
      decide_cmp; reflexivity.
  - unfold bands, adjacent. repeat apply Forall_cons; try apply Forall_nil;
      (split; [reflexivity | repeat (f_equal; try lra)]).
  - reflexivity.
  - intros x Hx. rewrite factor1_fin. unfold Spec.factor, low_factor.
    decide_cmp. reflexivity.
  - intros x Hx. rewrite factor1_fin. unfold Spec.factor, high_factor.
    decide_cmp. reflexivity.
  - unfold low_factor; lra.
  - rewrite factor1_fin. unfold Spec.factor. decide_cmp. reflexivity.
  - unfold high_factor; lra.
  - rewrite factor1_fin. unfold Spec.factor. decide_cmp. reflexivity.
  - intros k x0; apply channel_continuous.
Qed.

Lemma bands_meet_at_boundaries_witness :
  ramp1 #440 = map Fin [0; (440 - 440) / 50; 1]%R
  /\ continuous_within 380 780 (channel 0) 440.
Proof.
  split.
  - apply (Forall_inv (Forall_inv_tail (proj1 bands_meet_at_boundaries))).
    lra.
  - apply (proj2 (proj2 (proj2 (proj2 (proj2 (proj2 (proj2 (proj2 (proj2
             bands_meet_at_boundaries))))))))).
    lra.
Defined.

(** * Further properties of the code *)

(** ** Exceptions, allocation and validity *)

Lemma wavelength2rgb_refused (s : store) (nm : ndarray) (gamma : R) :
  (2 < ndim nm)%nat ->
  wavelength2rgb nm gamma s
  = (Raise (RuntimeError "NM has more than 2 dimensions"), s).
Proof.
  intros Hd. unfold wavelength2rgb, pre_gamma, bind.
  rewrite check_shape_raise by exact Hd. reflexivity.
Qed.

(** X1.  On a valid input the mapper has two outcomes only: it returns an
    array exactly when the input has at most two dimensions, and raises
    the runtime error of line 36 otherwise.  The reshapes of lines 34 and
    80 and the broadcast of line 82 never fail. *)
Theorem only_the_dimension_error (s : store) (nm : ndarray) (gamma : R) :
  valid s nm ->
  ((ndim nm <= 2)%nat /\
   exists (out : ndarray) (s' : store),
     wavelength2rgb nm gamma s = (Ok out, s'))
  \/ ((2 < ndim nm)%nat /\
      wavelength2rgb nm gamma s
      = (Raise (RuntimeError "NM has more than 2 dimensions"), s)).
Proof.
  intros Hv. destruct (le_lt_dec (ndim nm) 2) as [Hd|Hd].
  - left. split; [exact Hd|].
    eexists; eexists; apply wavelength2rgb_run; assumption.
  - right. split; [exact Hd|]. apply wavelength2rgb_refused, Hd.
Qed.

Lemma only_the_dimension_error_witness :
  ((ndim (mkArray 0 [2; 1]%nat) <= 2)%nat /\
   exists (out : ndarray) (s' : store),
     wavelength2rgb (mkArray 0 [2; 1]%nat) 0.8 [[#500; #600]] = (Ok out, s'))
  \/ ((2 < ndim (mkArray 0 [2; 1]%nat))%nat /\
      wavelength2rgb (mkArray 0 [2; 1]%nat) 0.8 [[#500; #600]]
      = (Raise (RuntimeError "NM has more than 2 dimensions"),
         [[#500; #600]])).
Proof.
  apply (only_the_dimension_error [[#500; #600]] (mkArray 0 [2; 1]%nat) 0.8).
  split; [simpl; lia | reflexivity].
Defined.



(** ** The factor *)

Lemma factor1_range (x : f64) :
  exists f : R, factor1 x = Fin f /\ (0.3 <= f <= 1)%R.
Proof.
  destruct x as [x| | |].
  - exists (Spec.factor x); split;
      [apply factor1_fin | apply spec_factor_range].
  - exists 1%R; split; [reflexivity | lra].
  - exists 1%R; split; [reflexivity | lra].
  - exists 1%R; split; [reflexivity | lra].
Qed.

(** X3.  Lines 74-80 never dim a wavelength below 30 per cent: whatever
    the elements of the input (infinities and NaN included), the factor
    array has one finite element per wavelength, between 0.3 and 1, in a
    new buffer, with a last dimension of 1. *)
Theorem factor_between_30_and_100_percent (S : store) (nm : ndarray) :
  valid S nm ->
  exists (factor : ndarray) (S' : store),
    falloff nm S = (Ok factor, S')
    /\ shape factor = shape nm ++ [1%nat]
    /\ buf factor = length S
    /\ length (nth (buf factor) S' []) = size nm
    /\ Forall (fun v => exists f : R, v = Fin f /\ (0.3 <= f <= 1)%R)
         (nth (buf factor) S' []).
Proof.
  intros Hv.
  eexists; eexists; split; [apply falloff_run; exact Hv|].
  cbn [buf shape]. rewrite nth_fresh, length_map.
  split; [reflexivity|]. split; [reflexivity|].
  split; [apply Hv|].
  apply Forall_map, Forall_forall. intros x _. apply factor1_range.
Qed.

Lemma factor_between_30_and_100_percent_witness :
  exists (factor : ndarray) (S' : store),
    falloff (mkArray 0 [1; 3]%nat) [[#380; NaN; #780]] = (Ok factor, S')
    /\ shape factor = [1; 3; 1]%nat
    /\ buf factor = 1%nat
    /\ length (nth (buf factor) S' []) = 3%nat
    /\ Forall (fun v => exists f : R, v = Fin f /\ (0.3 <= f <= 1)%R)
         (nth (buf factor) S' []).
Proof.
  apply (factor_between_30_and_100_percent [[#380; NaN; #780]]
           (mkArray 0 [1; 3]%nat)).
  split; [simpl; lia | reflexivity].
Defined.

(** ** Hue and brightness *)

Lemma color1_fin (g x : R) :
  color1 g (Fin x)
  = map (fun c => #(c * Spec.factor x) ** g) (Spec.rgb x).
Proof. unfold color1. rewrite scaled1_fin, map_map. reflexivity. Qed.

(** In every band one channel gets the value 1. *)
Lemma rgb_has_one (x : R) : (380 <= x < 780)%R -> In 1%R (Spec.rgb x).
Proof.
  intros Hx. unfold Spec.rgb.
  by_region x; try lra; decide_cmp; cbn [andb In]; auto.
Qed.

(** Everywhere one channel stays 0. *)
Lemma rgb_has_zero (x : R) : In 0%R (Spec.rgb x).
Proof.
  unfold Spec.rgb.
  by_region x; decide_cmp; cbn [andb In]; auto.
Qed.

Lemma fpow_one (r g : R) : r = 1%R -> #r ** g = #1.
Proof.
  intros ->. unfold fpow.
  destruct (Req_dec_T g 0) as [-> |Hg]; decide_cmp; [reflexivity|].
  rewrite Rpower_one. reflexivity.
Qed.

(** X4.  Between 420 and 700 nm the hue is at full brightness whatever
    gamma is: one channel of the triple is exactly 1; and for gamma > 0
    the hue is pure: one channel is exactly 0. *)
Theorem full_brightness_between_420_and_700 (s : store) (nm : ndarray)
    (gamma : R) :
  valid s nm -> (ndim nm <= 2)%nat ->
  exists (out : ndarray) (s' : store),
    wavelength2rgb nm gamma s = (Ok out, s')
    /\ forall (i : nat) (x : R),
         nth_error (nth (buf nm) s []) i = Some (Fin x) ->
         (420 <= x <= 700)%R ->
         In #1 (cell_at i (nth (buf out) s' []))
         /\ ((0 < gamma)%R -> In #0 (cell_at i (nth (buf out) s' []))).
Proof.
  intros Hv Hd.
  eexists; eexists; split; [apply wavelength2rgb_run; assumption|].
  intros i x Hi Hx. cbn [buf]. rewrite nth_fresh.
  rewrite (cell_at_cells _ _ i (Fin x)) by (apply color1_length || exact Hi).
  rewrite color1_fin.
  assert (Hf : Spec.factor x = 1%R)
    by (unfold Spec.factor; decide_cmp; reflexivity).
  split.
  - rewrite <- (fpow_one (1 * Spec.factor x) gamma) by (rewrite Hf; lra).
    apply (in_map (fun c => #(c * Spec.factor x) ** gamma)).
    apply rgb_has_one; lra.
  - intros Hg.
    rewrite <- (fpow_zero (0 * Spec.factor x) gamma) by lra.
    apply (in_map (fun c => #(c * Spec.factor x) ** gamma)).
    apply rgb_has_zero.
Qed.

Lemma full_brightness_between_420_and_700_witness :
  exists (out : ndarray) (s' : store),
    wavelength2rgb (mkArray 0 [2%nat]) (-2) [[#420; #700]] = (Ok out, s')
    /\ forall (i : nat) (x : R),
         nth_error [#420; #700] i = Some (Fin x) ->
         (420 <= x <= 700)%R ->
         In #1 (cell_at i (nth (buf out) s' []))
         /\ ((0 < -2)%R -> In #0 (cell_at i (nth (buf out) s' []))).
Proof.
  apply (full_brightness_between_420_and_700 [[#420; #700]]
           (mkArray 0 [2%nat]) (-2)).
  - split; [simpl; lia | reflexivity].
  - unfold ndim; simpl; lia.
Defined.



(** X6.  Which channel is dark where, for gamma > 0: red is exactly 0 from
    440 to 510 nm, green up to 440 nm and from 645 nm on, blue from
    510 nm on. *)
Theorem channel_support (s : store) (nm : ndarray) (gamma : R) :
  valid s nm -> (ndim nm <= 2)%nat -> (0 < gamma)%R ->
  exists (out : ndarray) (s' : store),
    wavelength2rgb nm gamma s = (Ok out, s')
    /\ forall (i : nat) (x : R),
         nth_error (nth (buf nm) s []) i = Some (Fin x) ->
         ((440 <= x <= 510)%R ->
          nth 0 (cell_at i (nth (buf out) s' [])) NaN = #0)
         /\ ((x <= 440 \/ 645 <= x)%R ->
             nth 1 (cell_at i (nth (buf out) s' [])) NaN = #0)
         /\ ((510 <= x)%R ->
             nth 2 (cell_at i (nth (buf out) s' [])) NaN = #0).
Proof.
  intros Hv Hd Hg.
  eexists; eexists; split; [apply wavelength2rgb_run; assumption|].
  intros i x Hi. cbn [buf]. rewrite nth_fresh.
  rewrite (cell_at_cells _ _ i (Fin x)) by (apply color1_length || exact Hi).
  rewrite color1_fin. unfold Spec.rgb.
  split; [intros Hx | split; [intros [Hx|Hx] | intros Hx]];
    by_region x; try lra; decide_cmp; cbn [andb map nth];
    (apply fpow_zero; [apply Rmult_eq_0_compat_r; lra | exact Hg]).
Qed.

Lemma channel_support_witness :
  exists (out : ndarray) (s' : store),
    wavelength2rgb (mkArray 0 [1%nat]) 0.8 [[#510]] = (Ok out, s')
    /\ forall (i : nat) (x : R),
         nth_error [#510] i = Some (Fin x) ->
         ((440 <= x <= 510)%R ->
          nth 0 (cell_at i (nth (buf out) s' [])) NaN = #0)
         /\ ((x <= 440 \/ 645 <= x)%R ->
             nth 1 (cell_at i (nth (buf out) s' [])) NaN = #0)
         /\ ((510 <= x)%R ->
             nth 2 (cell_at i (nth (buf out) s' [])) NaN = #0).
Proof.
  apply (channel_support [[#510]] (mkArray 0 [1%nat]) 0.8).
  - split; [simpl; lia | reflexivity].
  - unfold ndim; simpl; lia.
  - lra.
Defined.

(** ** The exponent *)

Lemma exp_le (x y : R) : (x <= y)%R -> (exp x <= exp y)%R.
Proof.
  intros [H| ->]; [left; apply exp_increasing; exact H | lra].
Qed.

Lemma fpow_pos_any (r g : R) : (0 < r)%R -> #r ** g = #(Rpower r g).
Proof.
  intros Hr. destruct (Req_dec_T g 0) as [-> |Hg].
  - unfold fpow. decide_cmp. rewrite Rpower_O by exact Hr. reflexivity.
  - apply fpow_pos; assumption.
Qed.

(** On the unit interval a larger exponent gives a smaller power. *)
Lemma fpow_antitone (v : f64) (g1 g2 : R) :
  unit_range v -> (0 <= g1 <= g2)%R ->
  exists r1 r2 : R, v ** g1 = Fin r1 /\ v ** g2 = Fin r2 /\ (r2 <= r1)%R.
Proof.
  intros Hv Hg. destruct v as [r| | |]; simpl in Hv; try contradiction.
  destruct (Rlt_dec 0 r) as [Hr|Hr].
  - rewrite !fpow_pos_any by exact Hr.
    eexists; eexists; split; [reflexivity|]. split; [reflexivity|].
    unfold Rpower. apply exp_le.
    assert (Hl : (ln r <= 0)%R).
    { destruct (proj2 Hv) as [Hlt| ->]; [|rewrite ln_1; lra].
      left; rewrite <- ln_1; apply ln_increasing; assumption. }
    nra.
  - assert (r = 0%R) by lra; subst r.
    unfold fpow.
    destruct (Req_dec_T g1 0) as [-> |H1].
    + destruct (Req_dec_T g2 0) as [-> |H2]; decide_cmp;
        eexists; eexists; (split; [reflexivity|]);
        (split; [reflexivity|]); lra.
    + decide_cmp.
      eexists; eexists; split; [reflexivity|]. split; [reflexivity|]. lra.
Qed.

Lemma Forall2_cells (P : f64 -> f64 -> Prop) (g g' : f64 -> list f64) xs :
  (forall x, Forall2 P (g x) (g' x)) ->
  Forall2 P (concat (map g xs)) (concat (map g' xs)).
Proof.
  intros H. induction xs as [|x xs IH]; simpl; [constructor|].
  apply Forall2_app; [apply H | exact IH].
Qed.

Lemma Forall2_maps (P : f64 -> f64 -> Prop) (f f' : f64 -> f64) l :
  Forall (fun v => P (f v) (f' v)) l -> Forall2 P (map f l) (map f' l).
Proof. induction 1; simpl; constructor; auto. Qed.

(** X7.  A larger gamma never brightens anything: for 0 <= g1 <= g2 every
    entry of the result for g2 is at most the entry at the same place of
    the result for g1, both finite. *)
Theorem larger_gamma_is_darker (s : store) (nm : ndarray) (g1 g2 : R) :
  valid s nm -> (ndim nm <= 2)%nat -> (0 <= g1 <= g2)%R ->
  exists (out1 out2 : ndarray) (s1 s2 : store),
    wavelength2rgb nm g1 s = (Ok out1, s1)
    /\ wavelength2rgb nm g2 s = (Ok out2, s2)
    /\ Forall2 (fun a b => exists r1 r2 : R,
                  a = Fin r1 /\ b = Fin r2 /\ (r2 <= r1)%R)
         (nth (buf out1) s1 []) (nth (buf out2) s2 []).
Proof.
  intros Hv Hd Hg.
  do 4 eexists.
  split; [apply wavelength2rgb_run; assumption|].
  split; [apply wavelength2rgb_run; assumption|].
  cbn [buf]. rewrite !nth_fresh.
  apply Forall2_cells; intros x. unfold color1.
  apply Forall2_maps.
  eapply Forall_impl; [|apply scaled1_unit].
  intros v Hu. apply fpow_antitone; assumption.
Qed.

Lemma larger_gamma_is_darker_witness :
  exists (out1 out2 : ndarray) (s1 s2 : store),
    wavelength2rgb (mkArray 0 [1%nat]) 0.8 [[#500]] = (Ok out1, s1)
    /\ wavelength2rgb (mkArray 0 [1%nat]) 2.2 [[#500]] = (Ok out2, s2)
    /\ Forall2 (fun a b => exists r1 r2 : R,
                  a = Fin r1 /\ b = Fin r2 /\ (r2 <= r1)%R)
         (nth (buf out1) s1 []) (nth (buf out2) s2 []).
Proof.
  apply (larger_gamma_is_darker [[#500]] (mkArray 0 [1%nat]) 0.8 2.2).
  - split; [simpl; lia | reflexivity].
  - unfold ndim; simpl; lia.
  - lra.
Defined.

Lemma fpow_exp_one (v : f64) : unit_range v -> v ** 1 = v.
Proof.
  intros Hv. destruct v as [r| | |]; simpl in Hv; try contradiction.
  destruct (Rlt_dec 0 r) as [Hr|Hr].
  - rewrite fpow_pos by lra. rewrite Rpower_1 by exact Hr. reflexivity.
  - assert (r = 0%R) by lra; subst r. apply fpow_zero; lra.
Qed.

Lemma pre_gamma_refused (s : store) (nm : ndarray) :
  (2 < ndim nm)%nat ->
  pre_gamma nm s = (Raise (RuntimeError "NM has more than 2 dimensions"), s).
Proof.
  intros Hd. unfold pre_gamma, bind.
  rewrite check_shape_raise by exact Hd. reflexivity.
Qed.

(** X8.  With gamma = 1 line 83 changes nothing: the mapper returns what
    lines 33-82 computed, the band values times the factor (and raises
    as they do). *)
Theorem gamma_one_is_identity (s : store) (nm : ndarray) :
  valid s nm ->
  value_of (wavelength2rgb nm 1 s) = value_of (pre_gamma nm s).
Proof.
  intros Hv. destruct (le_lt_dec (ndim nm) 2) as [Hd|Hd].
  - rewrite wavelength2rgb_run, pre_gamma_run by assumption.
    cbn [value_of buf shape]. rewrite !nth_fresh.
    do 3 f_equal. apply map_ext; intros x. unfold color1.
    rewrite <- (map_id (scaled1 x)) at 2.
    apply map_ext_in; intros v Hin.
    apply fpow_exp_one.
    pose proof (scaled1_unit x) as Hu. rewrite Forall_forall in Hu.
    apply Hu, Hin.
  - rewrite wavelength2rgb_refused, pre_gamma_refused by exact Hd.
    reflexivity.
Qed.

Lemma gamma_one_is_identity_witness :
  value_of (wavelength2rgb (mkArray 0 [2%nat]) 1 [[#400; #900]])
  = value_of (pre_gamma (mkArray 0 [2%nat]) [[#400; #900]]).
Proof.
  apply (gamma_one_is_identity [[#400; #900]] (mkArray 0 [2%nat])).
  split; [simpl; lia | reflexivity].
Defined.

(** ** Element by element *)

(** X9.  The mapper works element by element, in order: if the elements
    of one input are those of a second followed by those of a third, its
    result holds the triples of the second followed by those of the
    third.  An array can be mapped in pieces. *)
Theorem mapping_distributes_over_concatenation (s1 s2 s3 : store)
    (a1 a2 a3 : ndarray) (gamma : R) :
  valid s1 a1 -> valid s2 a2 -> valid s3 a3 ->
  (ndim a1 <= 2)%nat -> (ndim a2 <= 2)%nat -> (ndim a3 <= 2)%nat ->
  nth (buf a3) s3 [] = nth (buf a1) s1 [] ++ nth (buf a2) s2 [] ->
  exists b1 b2 : list f64,
    value_of (wavelength2rgb a1 gamma s1) = Ok (out_shape a1, b1)
    /\ value_of (wavelength2rgb a2 gamma s2) = Ok (out_shape a2, b2)
    /\ value_of (wavelength2rgb a3 gamma s3) = Ok (out_shape a3, b1 ++ b2).
Proof.
  intros Hv1 Hv2 Hv3 Hd1 Hd2 Hd3 Hb.
  rewrite !wavelength2rgb_run by assumption.
  cbn [value_of buf shape]. rewrite !nth_fresh, Hb.
  eexists; eexists; split; [reflexivity|]. split; [reflexivity|].
  rewrite map_app, concat_app. reflexivity.
Qed.

Lemma mapping_distributes_over_concatenation_witness :
  exists b1 b2 : list f64,
    value_of (wavelength2rgb (mkArray 0 [1%nat]) 0.8 [[#400]])
    = Ok ([1; 1; 3]%nat, b1)
    /\ value_of (wavelength2rgb (mkArray 0 [2%nat]) 0.8 [[#500; #600]])
       = Ok ([1; 2; 3]%nat, b2)
    /\ value_of (wavelength2rgb (mkArray 0 [3; 1]%nat) 0.8
                   [[#400; #500; #600]])
       = Ok ([3; 1; 3]%nat, b1 ++ b2).
Proof.
  apply (mapping_distributes_over_concatenation
           [[#400]] [[#500; #600]] [[#400; #500; #600]]
           (mkArray 0 [1%nat]) (mkArray 0 [2%nat]) (mkArray 0 [3; 1]%nat)
           0.8).
  - split; [simpl; lia | reflexivity].
  - split; [simpl; lia | reflexivity].
  - split; [simpl; lia | reflexivity].
  - unfold ndim; simpl; lia.
  - unfold ndim; simpl; lia.
  - unfold ndim; simpl; lia.
  - reflexivity.
Defined.

(** X10.  The shape of the input only decides the shape of the result:
    two inputs of at most two dimensions with the same elements in
    row-major order, a flat array and a column for instance, get the same
    triples in the same order. *)
Theorem reshaping_keeps_the_colours (s1 s2 : store) (a1 a2 : ndarray)
    (gamma : R) :
  valid s1 a1 -> valid s2 a2 ->
  (ndim a1 <= 2)%nat -> (ndim a2 <= 2)%nat ->
  nth (buf a1) s1 [] = nth (buf a2) s2 [] ->
  exists b : list f64,
    value_of (wavelength2rgb a1 gamma s1) = Ok (out_shape a1, b)
    /\ value_of (wavelength2rgb a2 gamma s2) = Ok (out_shape a2, b).
Proof.
  intros Hv1 Hv2 Hd1 Hd2 Hb.
  rewrite !wavelength2rgb_run by assumption.
  cbn [value_of buf shape]. rewrite !nth_fresh, Hb.
  eexists; split; reflexivity.
Qed.

Lemma reshaping_keeps_the_colours_witness :
  exists b : list f64,
    value_of (wavelength2rgb (mkArray 0 [2%nat]) 0.8 [[#500; #600]])
    = Ok ([1; 2; 3]%nat, b)
    /\ value_of (wavelength2rgb (mkArray 0 [2; 1]%nat) 0.8 [[#500; #600]])
       = Ok ([2; 1; 3]%nat, b).
Proof.
  apply (reshaping_keeps_the_colours [[#500; #600]] [[#500; #600]]
           (mkArray 0 [2%nat]) (mkArray 0 [2; 1]%nat) 0.8).
  - split; [simpl; lia | reflexivity].
  - split; [simpl; lia | reflexivity].
  - unfold ndim; simpl; lia.
  - unfold ndim; simpl; lia.
  - reflexivity.
Defined.

(** ** The rendered image *)

Lemma main_run (fname : string) (s : store) :
  main fname s
  = (Ok (mkImage fname [1; 400; 3]%nat
           (concat (map (color1 default_gamma)
                      (map (fun z => Fin (IZR z)) (range 380 780))))),
     s ++ [map (fun z => Fin (IZR z)) (range 380 780);
           concat (map (color1 default_gamma)
                     (map (fun z => Fin (IZR z)) (range 380 780)));
           map factor1 (map (fun z => Fin (IZR z)) (range 380 780))]).
Proof.
  set (dom := map (fun z => Fin (IZR z)) (range 380 780)).
  unfold main.
  assert (Ha : array_of (range 380 780) s
               = (Ok (mkArray (length s) [400%nat]), s ++ [dom]))
    by reflexivity.
  rewrite (bind_run _ _ _ _ _ Ha).
  assert (Hv : valid (s ++ [dom]) (mkArray (length s) [400%nat])).
  { split; cbn [buf].
    - rewrite length_app; simpl; lia.
    - rewrite nth_fresh. reflexivity. }
  assert (Hd : (ndim (mkArray (length s) [400%nat]) <= 2)%nat)
    by (unfold ndim; simpl; lia).
  rewrite (bind_run _ _ _ _ _ (wavelength2rgb_run _ _ default_gamma Hv Hd)).
  cbn [buf]. rewrite nth_fresh.
  unfold imsave, bind, load, ret. cbn [buf shape].
  rewrite (nth_fresh (s ++ [dom])), <- app_assoc. reflexivity.
Qed.

Lemma range_nth_error (lo hi : Z) (i : nat) :
  (i < Z.to_nat (hi - lo))%nat ->
  nth_error (range lo hi) i = Some (lo + Z.of_nat i)%Z.
Proof.
  intros Hi. unfold range.
  rewrite nth_error_map, nth_error_seq.
  replace (i <? Z.to_nat (hi - lo))%nat with true
    by (symmetry; apply Nat.ltb_lt; exact Hi).
  reflexivity.
Qed.

(** A visible wavelength keeps a channel of at least 0.3 ** g. *)
Lemma color1_lit (g x : R) :
  (0 <= g)%R -> (380 <= x < 780)%R ->
  exists r : R, In (Fin r) (color1 g (Fin x)) /\ (Rpower 0.3 g <= r)%R.
Proof.
  intros Hg Hx. rewrite color1_fin.
  pose proof (spec_factor_range x) as Hf.
  pose proof (in_map (fun c => #(c * Spec.factor x) ** g) _ _
                (rgb_has_one x Hx)) as Hin.
  cbv beta in Hin. rewrite fpow_pos_any in Hin by lra.
  eexists; split; [exact Hin|].
  apply Rle_Rpower_l; lra.
Qed.

(** X11.  The image [main] hands to [imsave], for any path and in any
    store: every one of its values lies in [[0,1]], and none of its 400
    columns is black, each having a channel of at least 0.3 ** 0.8. *)
Theorem rendered_spectrum_is_lit (fname : string) (s : store) :
  exists (img : image) (s' : store),
    main fname s = (Ok img, s')
    /\ Forall unit_range (pixels img)
    /\ (0 < Rpower 0.3 0.8)%R
    /\ forall i : nat, (i < 400)%nat ->
         exists r : R,
           In (Fin r) (cell_at i (pixels img))
           /\ (Rpower 0.3 0.8 <= r)%R.
Proof.
  eexists; eexists; split; [apply main_run|].
  cbn [pixels]. split; [|split].
  - apply Forall_cells; intros x. unfold color1.
    apply Forall_map. eapply Forall_impl; [|apply scaled1_unit].
    intros v; apply fpow_unit. unfold default_gamma; lra.
  - unfold Rpower; apply exp_pos.
  - intros i Hi.
    assert (Hn : nth_error (map (fun z => Fin (IZR z)) (range 380 780)) i
                 = Some (Fin (IZR (380 + Z.of_nat i)))).
    { rewrite nth_error_map, range_nth_error by (simpl; lia). reflexivity. }
    rewrite (cell_at_cells _ _ i _ (color1_length default_gamma) Hn).
    apply color1_lit; [unfold default_gamma; lra|].
    split; [apply IZR_le; lia | apply IZR_lt; lia].
Qed.

(** ** The ends of the visible range *)

Lemma channel_below (k : nat) (x : R) : (x < 380)%R -> channel k x = 0%R.
Proof.
  intros Hx. destruct (le_lt_dec 3 k) as [Hk|Hk].
  - apply channel_none, Hk.
  - rewrite channel_eq by exact Hk. unfold Spec.rgb. decide_cmp.
    cbn [andb]. destruct k as [|[|[|k]]]; try lia; cbn [nth]; lra.
Qed.

Lemma channel_above (k : nat) (x : R) : (780 <= x)%R -> channel k x = 0%R.
Proof.
  intros Hx. destruct (le_lt_dec 3 k) as [Hk|Hk].
  - apply channel_none, Hk.
  - rewrite channel_eq by exact Hk. unfold Spec.rgb. decide_cmp.
    cbn [andb]. destruct k as [|[|[|k]]]; try lia; cbn [nth]; lra.
Qed.

Lemma red_at_380 : channel 0 380 = 0.3%R.
Proof.
  rewrite channel_eq by lia. unfold Spec.rgb, Spec.factor. decide_cmp.
  cbn [andb nth]. lra.
Qed.

Lemma red_near_780 (x : R) :
  (700 < x < 780)%R -> channel 0 x = high_factor x.
Proof.
  intros Hx. rewrite channel_eq by lia.
  unfold Spec.rgb, Spec.factor, high_factor. decide_cmp.
  cbn [andb nth]. lra.
Qed.

(** X12.  The colour does not fade to black at the ends of the visible
    range, it is cut off.  Before gamma every channel is 0 below 380 nm
    and from 780 nm on, while red is 0.3 at 380 nm and at least 0.3 just
    below 780 nm: red jumps by 0.3 at 380 and at 780. *)
Theorem intensity_is_cut_off_at_both_ends :
  (forall (k : nat) (x : R), (x < 380)%R -> channel k x = 0%R)
  /\ channel 0 380 = 0.3%R
  /\ jumps_at (channel 0) 380 0.3
  /\ (forall x : R, (700 < x < 780)%R ->
        channel 0 x = high_factor x /\ (0.3 < channel 0 x)%R)
  /\ (forall (k : nat) (x : R), (780 <= x)%R -> channel k x = 0%R)
  /\ jumps_at (channel 0) 780 0.3.
Proof.
  split; [exact channel_below|].
  split; [exact red_at_380|].
  split; [|split; [|split; [exact channel_above|]]].
  - intros delta Hd. exists (380 - delta / 2)%R.
    rewrite channel_below, red_at_380 by lra.
    unfold Rabs.
    destruct (Rcase_abs (380 - delta / 2 - 380)), (Rcase_abs (0 - 0.3));
      lra.
  - intros x Hx. rewrite red_near_780 by exact Hx.
    unfold high_factor. lra.
  - intros delta Hd.
    destruct (Rlt_dec delta 80) as [Hs|Hs].
    + exists (780 - delta / 2)%R.
      rewrite red_near_780, (channel_above 0 780) by lra.
      unfold high_factor, Rabs.
      destruct (Rcase_abs (780 - delta / 2 - 780)),
        (Rcase_abs (0.3 + 0.7 * (780 - (780 - delta / 2)) / 80 - 0)); lra.
    + exists 750%R.
      rewrite red_near_780, (channel_above 0 780) by lra.
      unfold high_factor, Rabs.
      destruct (Rcase_abs (750 - 780)),
        (Rcase_abs (0.3 + 0.7 * (780 - 750) / 80 - 0)); lra.
Qed.

Lemma intensity_is_cut_off_at_both_ends_witness :
  channel 2 379 = 0%R /\ channel 0 779 = high_factor 779.
Proof.
  split.
  - apply (proj1 intensity_is_cut_off_at_both_ends). lra.
  - apply (proj1 (proj2 (proj2 (proj2 intensity_is_cut_off_at_both_ends)))).
    lra.
Defined.

(** ** The channel table *)

(** X13.  The table of [channelConfig.py]: no two entries have the same
    channel name; every filter mode is "R" or "T"; every light path
    is a run of dichroics ("R-...") closed by one emission filter
    ("EM-...") used in reflection; every entry is of the microscope
    "OMX_V3"; and [ChannelFormat] names the three fields of an entry. *)
Theorem channel_table_well_formed :
  NoDup (map ChannelConfig.channel_name ChannelConfig.Channels)
  /\ forallb (fun e => forallb ChannelConfig.mode_ok (ChannelConfig.filters e))
       ChannelConfig.Channels = true
  /\ forallb (fun e => ChannelConfig.path_ok (ChannelConfig.filters e))
       ChannelConfig.Channels = true
  /\ Forall (fun e => fst (fst e) = "OMX_V3"%string) ChannelConfig.Channels
  /\ length ChannelConfig.Channels = 7%nat
  /\ length ChannelConfig.ChannelFormat = 3%nat.
Proof.
  split; [|split; [|split; [|split; [|split]]]]; try reflexivity.
  - cbn. repeat (apply NoDup_cons; [cbn; intuition discriminate|]).
    apply NoDup_nil.
  - unfold ChannelConfig.Channels.
    repeat apply Forall_cons; try apply Forall_nil; reflexivity.
Qed.
